(** * server/server.go of dex: a shallow embedding and its properties

    The file follows the Go source top-down: the shared data model
    (errors, storage records, identities), the configuration helper
    [value], the local password connector ([passwordDB]), the key cacher,
    the connector registry ([openConnector], [OpenConnector],
    [getConnector]), the header-stripping [/callback] route and the
    constructor [newServer].

    Go conventions kept by the embedding:
    - a function returning [(T, error)] returns a pair [T * option error],
      [None] being the nil error;
    - [time.Time] and [time.Duration] are integers ([Z]) counting
      nanoseconds, [[]byte] and [string] are [string] (a list of bytes);
    - collaborators that live outside server.go (the storage, bcrypt, the
      connector packages, net/url, the templates, the other handlers) are
      interfaces, records and classes of functions, over which every
      statement is quantified. *)

From Stdlib Require Import ZArith Lia Bool List Ascii String.
From stdpp Require Import base option list strings gmap.
Import ListNotations.

Local Open Scope string_scope.
Local Open Scope Z_scope.

#[local] Set Warnings "-register-all".

(** ** Errors *)

(** An argument of a [fmt.Errorf] call. *)
Inductive fmt_arg (E : Type) : Type :=
| arg_s (s : string)   (* a string, printed with %s or %q *)
| arg_d (n : Z)        (* an integer, printed with %d *)
| arg_v (e : E).       (* an error, printed with %v *)
Arguments arg_s {E} s.
Arguments arg_d {E} n.
Arguments arg_v {E} e.

(** Go error values.  [ErrNotFound] is the sentinel [storage.ErrNotFound],
    compared by identity in the source; an error built by [fmt.Errorf] is
    kept as its format string and arguments. *)
Inductive error : Type :=
| ErrNotFound
| errors_New (text : string)
| fmt_Errorf (format : string) (args : list (fmt_arg error)).

(** [err == storage.ErrNotFound] *)
Definition is_ErrNotFound (e : error) : bool :=
  match e with
  | ErrNotFound => true
  | _ => false
  end.

(** ** Time *)

Definition Time := Z.
Definition Duration := Z.

Definition Nanosecond : Duration := 1.
Definition Second : Duration := 1000000000 * Nanosecond.
Definition Minute : Duration := 60 * Second.
Definition Hour : Duration := 60 * Minute.

(** [t.Before(u)] *)
Definition Before (t u : Time) : bool := t <? u.

(** ** Storage records and identities *)

Module storage.

(** Modelled from the spec: the struct storage.Password is declared in
    the storage package; the spec gives it as
    (email, hash, username, user_id). *)
Record Password : Type := mkPassword {
  Email : string;
  Hash : string;
  Username : string;
  UserID : string
}.

(** Modelled from the spec: the struct storage.Keys is declared in the
    storage package; the spec gives it as (signing_private,
    signing_public, verification_keys[{public, expiry}], next_rotation).
    server.go reads NextRotation only; key material is kept as bytes. *)
Record Keys : Type := mkKeys {
  SigningKey : string;
  SigningKeyPub : string;
  VerificationKeys : list (string * Time);
  NextRotation : Time
}.

(** Modelled from the spec: the struct storage.Connector is declared in
    the storage package; the spec gives it as
    (id, type, name, resource_version, config_blob). *)
Record Connector : Type := mkConnector {
  ID : string;
  Type_ : string;
  Name : string;
  ResourceVersion : string;
  Config : string
}.

(** The part of the interface storage.Storage that server.go calls.
    GetPassword, GetConnector and ListConnectors are called once per
    operation and are given by their answer at that moment; GetKeys is
    polled again and again by the key cacher, so [GetKeys n] is the answer
    of the n-th read (the record in storage may change between reads). *)
Record Storage : Type := mkStorage {
  GetPassword : string -> Password * option error;
  GetConnector : string -> Connector * option error;
  ListConnectors : list Connector * option error;
  GetKeys : nat -> Keys * option error
}.

End storage.

Module connector.

(** Modelled from the spec: the struct connector.Identity is declared in
    the connector package; the spec gives the claims a connector
    produces as (user_id, username, preferred_username, email,
    email_verified, groups[]). *)
Record Identity : Type := mkIdentity {
  UserID : string;
  Username : string;
  PreferredUsername : string;
  Email : string;
  EmailVerified : bool;
  Groups : list string
}.

(** The zero value, written connector.Identity{} in the source. *)
Definition zeroIdentity : Identity := mkIdentity "" "" "" "" false [].

(** The assignment identity.Username = u. *)
Definition set_Username (i : Identity) (u : string) : Identity :=
  mkIdentity (UserID i) u (PreferredUsername i) (Email i)
             (EmailVerified i) (Groups i).

(** A value of the interface connector.Connector: nil, the built-in
    passwordDB wrapping a storage, or an instance opened by one of the
    connector packages ([Inst] is whatever those packages return). *)
Inductive Connector (Inst : Type) : Type :=
| nil
| passwordDB (s : storage.Storage)
| opened (i : Inst).
Arguments nil {Inst}.
Arguments passwordDB {Inst} s.
Arguments opened {Inst} i.

End connector.

(** ** Configuration defaults *)

(** func value(val, defaultValue time.Duration) time.Duration *)
Definition value (val defaultValue : Duration) : Duration :=
  if val =? 0 then defaultValue else val.

(** ** The local password connector *)

(** golang.org/x/crypto/bcrypt, as far as server.go and checkCost use it. *)
Class Bcrypt : Type := {
  bcrypt_Cost : string -> Z * option error;
  bcrypt_CompareHashAndPassword : string -> string -> option error
}.

(** The calls a passwordDB method makes on its collaborators, in order. *)
Inductive Call : Type :=
| call_GetPassword (email : string)
| call_Cost (hash : string)
| call_CompareHashAndPassword (hash password : string).

(** A computation that records the calls it makes. *)
Definition Traced (A : Type) : Type := A * list Call.

Definition tret {A} (a : A) : Traced A := (a, []).

Definition tbind {A B} (m : Traced A) (f : A -> Traced B) : Traced B :=
  let '(a, t1) := m in
  let '(b, t2) := f a in
  (b, (t1 ++ t2)%list).

Definition tcall {A} (c : Call) (answer : A) : Traced A := (answer, [c]).

Notation "'let*' x ':=' m 'in' k" := (tbind m (fun x => k))
  (at level 10, x pattern, m at level 100, k at level 200).

Definition upBoundCost : Z := 16.
Definition bcrypt_MinCost : Z := 4.

Definition errCostOutOfRange (actual : Z) : error :=
  fmt_Errorf "hash cost = %d is outside the range [%d, %d]"
             [arg_d actual; arg_d bcrypt_MinCost; arg_d upBoundCost].

(** Modelled from the spec: checkCost is declared in another file of the
    package.  The spec says that the hash is a bcrypt hash with cost in
    [4, 16], that hashes outside the range are rejected at login time, and
    that a hash stored at cost 20 yields an explicit cost-out-of-range
    error.  A hash whose cost bcrypt cannot read is rejected as well. *)
Definition checkCost `{Bcrypt} (hash : string) : Traced (option error) :=
  let* (actual, err) := tcall (call_Cost hash) (bcrypt_Cost hash) in
  match err with
  | Some e => tret (Some (fmt_Errorf "parsing bcrypt hash: %v" [arg_v e]))
  | None =>
      if actual <? bcrypt_MinCost then tret (Some (errCostOutOfRange actual))
      else if upBoundCost <? actual then tret (Some (errCostOutOfRange actual))
      else tret None
  end.

(** type passwordDB struct { s storage.Storage } *)
Record passwordDB : Type := mkPasswordDB { s : storage.Storage }.

(** func (db passwordDB) Login(ctx, s, email, password)
    (connector.Identity, bool, error); ctx and the scopes are unused. *)
Definition passwordDB_Login `{Bcrypt} (db : passwordDB) (email password : string)
  : Traced (connector.Identity * bool * option error) :=
  let* (p, err) := tcall (call_GetPassword email) (storage.GetPassword (s db) email) in
  match err with
  | Some err =>
      if negb (is_ErrNotFound err)
      then tret (connector.zeroIdentity, false,
                 Some (fmt_Errorf "get password: %v" [arg_v err]))
      else tret (connector.zeroIdentity, false, None)
  | None =>
      let* err := checkCost (storage.Hash p) in
      match err with
      | Some err => tret (connector.zeroIdentity, false, Some err)
      | None =>
          let* err := tcall (call_CompareHashAndPassword (storage.Hash p) password)
                       (bcrypt_CompareHashAndPassword (storage.Hash p) password) in
          match err with
          | Some _ => tret (connector.zeroIdentity, false, None)
          | None =>
              tret (connector.mkIdentity (storage.UserID p) (storage.Username p) ""
                                         (storage.Email p) true [],
                    true, None)
          end
      end
  end.

(** func (db passwordDB) Refresh(ctx, s, identity) (connector.Identity, error) *)
Definition passwordDB_Refresh (db : passwordDB) (identity : connector.Identity)
  : Traced (connector.Identity * option error) :=
  let* (p, err) := tcall (call_GetPassword (connector.Email identity))
                     (storage.GetPassword (s db) (connector.Email identity)) in
  match err with
  | Some err =>
      if is_ErrNotFound err
      then tret (connector.zeroIdentity, Some (errors_New "user not found"))
      else tret (connector.zeroIdentity,
                 Some (fmt_Errorf "get password: %v" [arg_v err]))
  | None =>
      if negb (String.eqb (storage.UserID p) (connector.UserID identity))
      then tret (connector.zeroIdentity, Some (errors_New "user not found"))
      else tret (connector.set_Username identity (storage.Username p), None)
  end.

(** func (db passwordDB) Prompt() string *)
Definition passwordDB_Prompt (db : passwordDB) : string := "Email Address".

(** func newPasswordDB(s storage.Storage) *)
Definition newPasswordDB {Inst} (s : storage.Storage) : connector.Connector Inst :=
  connector.passwordDB s.

(** ** The key cacher *)

(** What a key cacher does to the outside world, as events. *)
Inductive Event : Type :=
| ev_now (t : Time)                                   (* k.now() returned t *)
| ev_GetKeys (answer : storage.Keys * option error)   (* k.Storage.GetKeys() *)
| ev_Store (stored : storage.Keys).                   (* k.keys.Store(&keys) *)

(** How far the outside world has been consumed: the number of clock
    readings, the number of reads of the keys in storage, and the events so
    far, most recent first. *)
Record Env : Type := mkEnv {
  nowCalls : nat;
  keysReads : nat;
  events : list Event
}.

Definition startEnv : Env := mkEnv 0 0 [].

(** type keyCacher struct { storage.Storage; now func() time.Time;
    keys atomic.Value }.  The clock is the sequence of its readings; the
    atomic slot holds nil ([None]) or a pointer to a copy of the keys. *)
Record keyCacher : Type := mkKeyCacher {
  Storage : storage.Storage;
  now : nat -> Time;
  keys : option storage.Keys
}.

(** The wall clock of the process, time.Now. *)
Class Clock : Type := { time_Now : nat -> Time }.

(** func newKeyCacher(s storage.Storage, now func() time.Time) storage.Storage *)
Definition newKeyCacher `{Clock} (s : storage.Storage) (now : option (nat -> Time))
  : keyCacher :=
  let now := match now with
             | None => time_Now
             | Some f => f
             end in
  mkKeyCacher s now None.

(** One call of k.now(). *)
Definition call_now (k : keyCacher) (w : Env) : Time * Env :=
  let t := now k (nowCalls w) in
  (t, mkEnv (S (nowCalls w)) (keysReads w) (ev_now t :: events w)).

(** One call of k.Storage.GetKeys(). *)
Definition call_Storage_GetKeys (k : keyCacher) (w : Env)
  : (storage.Keys * option error) * Env :=
  let r := storage.GetKeys (Storage k) (keysReads w) in
  (r, mkEnv (nowCalls w) (S (keysReads w)) (ev_GetKeys r :: events w)).

(** k.keys.Store(&storageKeys) *)
Definition keys_Store (k : keyCacher) (w : Env) (v : storage.Keys)
  : keyCacher * Env :=
  (mkKeyCacher (Storage k) (now k) (Some v),
   mkEnv (nowCalls w) (keysReads w) (ev_Store v :: events w)).

(** The condition of the first if: ok && keys != nil &&
    k.now().Before(keys.NextRotation).  The clock is read only when the
    slot holds keys. *)
Definition cachedFresh (k : keyCacher) (w : Env) : option storage.Keys * Env :=
  match keys k with
  | None => (None, w)
  | Some cached =>
      let '(t, w1) := call_now k w in
      if Before t (storage.NextRotation cached) then (Some cached, w1)
      else (None, w1)
  end.

(** func (k *keyCacher) GetKeys() (storage.Keys, error) *)
Definition keyCacher_GetKeys (k : keyCacher) (w : Env)
  : (storage.Keys * option error) * keyCacher * Env :=
  match cachedFresh k w with
  | (Some cached, w1) => ((cached, None), k, w1)
  | (None, w1) =>
      let '((storageKeys, err), w2) := call_Storage_GetKeys k w1 in
      match err with
      | Some err => ((storageKeys, Some err), k, w2)
      | None =>
          let '(t, w3) := call_now k w2 in
          if Before t (storage.NextRotation storageKeys)
          then let '(k', w4) := keys_Store k w3 storageKeys in
               ((storageKeys, None), k', w4)
          else ((storageKeys, None), k, w3)
      end
  end.

(** [n] calls of GetKeys in a row; the answers, oldest first. *)
Fixpoint GetKeys_times (n : nat) (k : keyCacher) (w : Env)
  : list (storage.Keys * option error) * keyCacher * Env :=
  match n with
  | O => ([], k, w)
  | S n' =>
      let '(r, k1, w1) := keyCacher_GetKeys k w in
      let '(rs, k2, w2) := GetKeys_times n' k1 w1 in
      (r :: rs, k2, w2)
  end.

(** ** The connector registry *)

(** const LocalConnector = "local" *)
Definition LocalConnector : string := "local".

(** A logrus.FieldLogger, as the fields it carries. *)
Definition Logger : Type := list (string * string).

Definition WithField (l : Logger) (key val : string) : Logger := (key, val) :: l.

(** A type of connector configuration, as a connector package declares
    it: the struct, the zero value that new returns, what json.Unmarshal
    makes of a blob, and the method Open of the interface ConnectorConfig. *)
Record ConfigType (Inst : Type) : Type := mkConfigType {
  configStruct : Type;
  new : configStruct;
  json_Unmarshal : string -> configStruct -> configStruct * option error;
  Open : configStruct -> string -> Logger -> connector.Connector Inst * option error
}.
Arguments configStruct {Inst} _.
Arguments new {Inst} _.
Arguments json_Unmarshal {Inst} _ _ _.
Arguments Open {Inst} _ _ _ _.

(** The connector packages imported by server.go. *)
Class ConnectorPackages : Type := {
  Inst : Type;
  mock_CallbackConfig : ConfigType Inst;
  mock_PasswordConfig : ConfigType Inst;
  ldap_Config : ConfigType Inst;
  github_Config : ConfigType Inst;
  gitlab_Config : ConfigType Inst;
  oidc_Config : ConfigType Inst;
  oauth_Config : ConfigType Inst;
  saml_Config : ConfigType Inst;
  cf_Config : ConfigType Inst;
  authproxy_Config : ConfigType Inst;
  linkedin_Config : ConfigType Inst;
  microsoft_Config : ConfigType Inst
}.

(** var ConnectorsConfig = map[string]func() ConnectorConfig{...} *)
Definition ConnectorsConfig `{ConnectorPackages} : gmap string (ConfigType Inst) :=
  list_to_map
    [ ("mockCallback", mock_CallbackConfig);
      ("mockPassword", mock_PasswordConfig);
      ("ldap", ldap_Config);
      ("github", github_Config);
      ("gitlab", gitlab_Config);
      ("oidc", oidc_Config);
      ("oauth", oauth_Config);
      ("saml", saml_Config);
      ("cf", cf_Config);
      ("authproxy", authproxy_Config);
      ("linkedin", linkedin_Config);
      ("microsoft", microsoft_Config);
      ("samlExperimental", saml_Config) ].

(** The config value that openConnector hands to Open: the fresh value of
    the factory, filled by json.Unmarshal when the blob is not empty. *)
Definition parsedConfig {Inst} (f : ConfigType Inst) (conn : storage.Connector)
  : configStruct f * option error :=
  if negb (String.length (storage.Config conn) =? 0)%nat
  then json_Unmarshal f (storage.Config conn) (new f)
  else (new f, None).

(** The steps of openConnector after the lookup in ConnectorsConfig. *)
Definition openWith {Inst} (f : ConfigType Inst) (logger : Logger)
  (conn : storage.Connector) : connector.Connector Inst * option error :=
  let '(connConfig, err) := parsedConfig f conn in
  match err with
  | Some err =>
      (connector.nil, Some (fmt_Errorf "parse connector config: %v" [arg_v err]))
  | None =>
      let '(c, err) := Open f connConfig (storage.ID conn) logger in
      match err with
      | Some err =>
          (c, Some (fmt_Errorf "failed to create connector %s: %v"
                               [arg_s (storage.ID conn); arg_v err]))
      | None => (c, None)
      end
  end.

(** func openConnector(logger logrus.FieldLogger, conn storage.Connector)
    (connector.Connector, error) *)
Definition openConnector `{ConnectorPackages} (logger : Logger)
  (conn : storage.Connector) : connector.Connector Inst * option error :=
  match ConnectorsConfig !! storage.Type_ conn with
  | None =>
      (connector.nil,
       Some (fmt_Errorf "unknown connector type %q" [arg_s (storage.Type_ conn)]))
  | Some f => openWith f logger conn
  end.

(** type Connector struct { ResourceVersion string;
    Connector connector.Connector } *)
Record Connector (Inst : Type) : Type := mkServerConnector {
  ResourceVersion : string;
  Connector_ : connector.Connector Inst
}.
Arguments mkServerConnector {Inst} _ _.
Arguments ResourceVersion {Inst} _.
Arguments Connector_ {Inst} _.

(** The zero value, written Connector{} in the source. *)
Definition zeroConnector {Inst} : Connector Inst := mkServerConnector "" connector.nil.

(** ** HTTP requests and header keys *)

(** The bytes a header field name may hold (RFC 7230 token characters),
    net/textproto's validHeaderFieldByte. *)
Definition validHeaderFieldByte (c : ascii) : bool :=
  let n := nat_of_ascii c in
  ((48 <=? n) && (n <=? 57) || (65 <=? n) && (n <=? 90)
   || (97 <=? n) && (n <=? 122)
   || existsb (Nat.eqb n) [33; 35; 36; 37; 38; 39; 42; 43; 45; 46; 94; 95; 96; 124; 126])%nat.

Definition isLower (c : ascii) : bool :=
  let n := nat_of_ascii c in ((97 <=? n) && (n <=? 122))%nat.

Definition isUpper (c : ascii) : bool :=
  let n := nat_of_ascii c in ((65 <=? n) && (n <=? 90))%nat.

Definition toUpperByte (c : ascii) : ascii :=
  if isLower c then ascii_of_nat (nat_of_ascii c - 32) else c.

Definition toLowerByte (c : ascii) : ascii :=
  if isUpper c then ascii_of_nat (nat_of_ascii c + 32) else c.

Definition isDash (c : ascii) : bool := (nat_of_ascii c =? 45)%nat.

Fixpoint allValid (s : string) : bool :=
  match s with
  | EmptyString => true
  | String c s' => validHeaderFieldByte c && allValid s'
  end.

(** The loop of canonicalMIMEHeaderKey: the first letter and every letter
    after a dash in upper case, every other letter in lower case. *)
Fixpoint canonicalize (upper : bool) (s : string) : string :=
  match s with
  | EmptyString => EmptyString
  | String c s' =>
      let c' := if upper then toUpperByte c else toLowerByte c in
      String c' (canonicalize (isDash c') s')
  end.

(** textproto.CanonicalMIMEHeaderKey: a key holding a byte that is no
    token character is returned as it is. *)
Definition CanonicalMIMEHeaderKey (s : string) : string :=
  if allValid s then canonicalize true s else s.

(** strings.ToLower on the ASCII letters.  On other runes the library
    follows Unicode, and none of them lowers to a byte of x-remote-, so the
    test of the prefix below reads the same bytes. *)
Fixpoint ToLower (s : string) : string :=
  match s with
  | EmptyString => EmptyString
  | String c s' => String (toLowerByte c) (ToLower s')
  end.

(** strings.HasPrefix(s, prefix) *)
Definition HasPrefix (s prefix : string) : bool := String.prefix prefix s.

(** http.Header.Del(key) *)
Definition Header_Del (h : gmap string (list string)) (key : string)
  : gmap string (list string) :=
  delete (CanonicalMIMEHeaderKey key) h.

(** The part of *http.Request the routes of server.go look at. *)
Record Request : Type := mkRequest {
  Method : string;
  Path : string;
  Header : gmap string (list string);
  Body : string
}.

Definition isRemoteKey (key : string) : bool :=
  HasPrefix (ToLower key) "x-remote-".

(** One turn of the loop for key := range r.Header.  A key that an
    earlier turn has removed is not produced. *)
Definition stripStep (h : gmap string (list string)) (key : string)
  : gmap string (list string) :=
  match h !! key with
  | None => h
  | Some _ => if isRemoteKey key then Header_Del h key else h
  end.

(** The whole loop; [order] is the order in which the runtime produces
    the keys of the map, which Go leaves unspecified. *)
Definition stripRemoteHeaders (order : list string) (h : gmap string (list string))
  : gmap string (list string) :=
  fold_left stripStep order h.

(** net/http's reading of the header lines of a request, one
    Header.Add(name, value) per line: the key is made canonical. *)
Definition Header_Add (h : gmap string (list string)) (line : string * string)
  : gmap string (list string) :=
  let key := CanonicalMIMEHeaderKey line.1 in
  <[key := (default [] (h !! key) ++ [line.2])%list]> h.

Definition readHeader (lines : list (string * string)) : gmap string (list string) :=
  fold_left Header_Add lines ∅.

(** ** The server and its construction *)

(** What server.go takes from the standard library and from the packages
    it imports, connectors and bcrypt apart. *)
Class Platform : Type := {
  URL : Type;
  url_Parse : string -> URL * option error;
  url_Path : URL -> string;
  path_Join : string -> string -> string;
  FileSystem : Type;
  Registry : Type;
  prometheus_Register : Registry -> option error;
  logrus_New : Logger
}.

Module web.

(** type WebConfig struct *)
Record WebConfig `{Platform} : Type := mkWebConfig {
  Dir : FileSystem;
  LogoURL : string;
  Issuer : string;
  Theme : string
}.

End web.

(** What server.go takes from the other files of package server. *)
Class Package `{Platform} : Type := {
  rotationStrategy : Type;
  defaultRotationStrategy : Duration -> Duration -> rotationStrategy;
  templates : Type;
  loadTemplates : web.WebConfig -> string -> templates * option error;
  Response : Type
}.

Module conf.

(** type Config struct *)
Record Config `{Platform} : Type := mkConfig {
  Issuer : string;
  Storage : option storage.Storage;
  SupportedResponseTypes : list string;
  AllowedOrigins : list string;
  SkipApprovalScreen : bool;
  PasswordConnector : string;
  RotateKeysAfter : Duration;
  IDTokensValidFor : Duration;
  GCFrequency : Duration;
  Now : option (nat -> Time);
  Web : web.WebConfig;
  Logger : option Logger;
  PrometheusRegistry : option Registry
}.

End conf.

(** The handlers the router dispatches to. *)
Inductive HandlerFunc `{Platform} : Type :=
| discoveryHandler_
| handleToken
| handlePublicKeys
| handleAuthorization
| handleConnectorLogin
| callbackStripped           (* the closure registered for /callback *)
| handleConnectorCallback_
| handleApproval
| handleHealth
| FileServer (dir : FileSystem).

(** One route of the gorilla router: the pattern, whether it matches as a
    prefix, the origins of the CORS wrapper (none when there is no
    wrapper), the name under which requests are counted (when the
    Prometheus wrapper is installed) and the handler. *)
Record Route `{Platform} : Type := mkRoute {
  pattern : string;
  isPrefix : bool;
  corsOrigins : list string;
  counted : option string;
  handler : HandlerFunc
}.

(** type Server struct *)
Record Server `{Package} `{ConnectorPackages} : Type := mkServer {
  issuerURL : URL;
  connectors : gmap string (Connector Inst);
  storage_ : keyCacher;
  mux : list Route;
  templates_ : templates;
  skipApproval : bool;
  passwordConnector : string;
  supportedResponseTypes : gmap string bool;
  now_ : nat -> Time;
  idTokensValidFor : Duration;
  logger : Logger
}.

(** s.connectors[id] = c *)
Definition set_connectors `{Package} `{ConnectorPackages} (s : Server)
  (m : gmap string (Connector Inst)) : Server :=
  {| issuerURL := issuerURL s; connectors := m; storage_ := storage_ s;
     mux := mux s; templates_ := templates_ s; skipApproval := skipApproval s;
     passwordConnector := passwordConnector s;
     supportedResponseTypes := supportedResponseTypes s; now_ := now_ s;
     idTokensValidFor := idTokensValidFor s; logger := logger s |}.

(** s.mux = r *)
Definition set_mux `{Package} `{ConnectorPackages} (s : Server)
  (r : list Route) : Server :=
  {| issuerURL := issuerURL s; connectors := connectors s;
     storage_ := storage_ s; mux := r; templates_ := templates_ s;
     skipApproval := skipApproval s; passwordConnector := passwordConnector s;
     supportedResponseTypes := supportedResponseTypes s; now_ := now_ s;
     idTokensValidFor := idTokensValidFor s; logger := logger s |}.

(** func (s *Server) OpenConnector(conn storage.Connector) (Connector, error).
    The local connector wraps s.storage, of which passwordDB calls
    GetPassword only, a method the key cacher inherits from the storage it
    embeds. *)
Definition Server_OpenConnector `{Package} `{ConnectorPackages} (s : Server)
  (conn : storage.Connector) : (Connector Inst * option error) * Server :=
  let '(c, err) :=
    if String.eqb (storage.Type_ conn) LocalConnector
    then (newPasswordDB (Storage (storage_ s)), None)
    else openConnector (WithField (logger s) "connector" (storage.Name conn)) conn in
  match err with
  | Some err =>
      ((zeroConnector, Some (fmt_Errorf "failed to open connector: %v" [arg_v err])), s)
  | None =>
      let connector := mkServerConnector (storage.ResourceVersion conn) c in
      ((connector, None),
       set_connectors s (<[storage.ID conn := connector]> (connectors s)))
  end.

(** func (s *Server) getConnector(id string) (Connector, error) *)
Definition Server_getConnector `{Package} `{ConnectorPackages} (s : Server)
  (id : string) : (Connector Inst * option error) * Server :=
  let '(storageConnector, err) := storage.GetConnector (Storage (storage_ s)) id in
  match err with
  | Some err =>
      ((zeroConnector,
        Some (fmt_Errorf "failed to get connector object from storage: %v" [arg_v err])),
       s)
  | None =>
      let hit :=
        match connectors s !! id with
        | None => None
        | Some conn =>
            if negb (String.eqb (storage.ResourceVersion storageConnector)
                                (ResourceVersion conn))
            then None else Some conn
        end in
      match hit with
      | None =>
          let '((conn, err), s') := Server_OpenConnector s storageConnector in
          match err with
          | Some err =>
              ((zeroConnector,
                Some (fmt_Errorf "failed to open connector: %v" [arg_v err])), s')
          | None => ((conn, None), s')
          end
      | Some conn => ((conn, None), s)
      end
  end.

(** The handlers of the other files of package server that server.go
    calls itself. *)
Class Handlers `{Package} `{ConnectorPackages} : Type := {
  discoveryHandler : Server -> option error;
  handleConnectorCallback : Server -> Request -> Response * Server
}.

(** The closure registered for the generic /callback route:
    the loop over r.Header, then s.handleConnectorCallback(w, r). *)
Definition callbackRoute `{Handlers} (order : list string) (s : Server)
  (r : Request) : Response * Server :=
  let r' := mkRequest (Method r) (Path r)
                      (stripRemoteHeaders order (Header r)) (Body r) in
  handleConnectorCallback s r'.

(** Modelled from the spec: the constants responseTypeCode,
    responseTypeToken and responseTypeIDToken are declared in another file
    of the package; the spec gives the set of response types as
    {code, id_token, token}. *)
Definition responseTypeCode : string := "code".
Definition responseTypeToken : string := "token".
Definition responseTypeIDToken : string := "id_token".

(** The cases of the switch on respType that fall through to
    supported[respType] = true. *)
Definition isResponseType (respType : string) : bool :=
  String.eqb respType responseTypeCode
  || String.eqb respType responseTypeIDToken
  || String.eqb respType responseTypeToken.

(** The loop for _, respType := range c.SupportedResponseTypes. *)
Fixpoint supportedTypes (respTypes : list string) (supported : gmap string bool)
  : gmap string bool + error :=
  match respTypes with
  | [] => inl supported
  | respType :: rest =>
      if isResponseType respType
      then supportedTypes rest (<[respType := true]> supported)
      else inr (fmt_Errorf "unsupported response_type %q" [arg_s respType])
  end.

(** The loop for _, conn := range storageConnectors. *)
Fixpoint openAll `{Package} `{ConnectorPackages} (s : Server)
  (conns : list storage.Connector) : Server + error :=
  match conns with
  | [] => inl s
  | conn :: rest =>
      let '((_, err), s') := Server_OpenConnector s conn in
      match err with
      | Some err =>
          inr (fmt_Errorf "server: Failed to open connector %s: %v"
                          [arg_s (storage.ID conn); arg_v err])
      | None => openAll s' rest
      end
  end.

(** The background workers a constructor starts. *)
Inductive Worker `{Package} : Type :=
| keyRotation (strategy : rotationStrategy) (now : nat -> Time)
| garbageCollection (frequency : Duration) (now : nat -> Time).

(** The routes newServer registers, in the order of registration.
    [counting] says whether a Prometheus registry was configured. *)
Definition routes `{Platform} (issuerPath : string) (origins : list string)
  (counting : bool) (dir : FileSystem) : list Route :=
  let handleWithCORS p h :=
    {| pattern := path_Join issuerPath p; isPrefix := false;
       corsOrigins := origins; counted := None; handler := h |} in
  let handleFunc p h :=
    {| pattern := path_Join issuerPath p; isPrefix := false; corsOrigins := [];
       counted := if counting then Some p else None; handler := h |} in
  [ handleWithCORS "/.well-known/openid-configuration" discoveryHandler_;
    handleWithCORS "/token" handleToken;
    handleWithCORS "/keys" handlePublicKeys;
    handleFunc "/auth" handleAuthorization;
    handleFunc "/auth/{connector}" handleConnectorLogin;
    {| pattern := path_Join issuerPath "/callback"; isPrefix := false;
       corsOrigins := []; counted := None; handler := callbackStripped |};
    handleFunc "/callback/{connector}" handleConnectorCallback_;
    handleFunc "/approval" handleApproval;
    handleFunc "/healthz" handleHealth;
    {| pattern := path_Join issuerPath "/"; isPrefix := true; corsOrigins := [];
       counted := None; handler := FileServer dir |} ].

Definition failed `{Package} `{ConnectorPackages} (e : error)
  : (option Server * option error) * list Worker :=
  ((None, Some e), []).

(** func newServer(ctx context.Context, c Config,
    rotationStrategy rotationStrategy), returning a *Server and an error, with the workers
    it has started. *)
Definition newServer `{Handlers} `{Clock} (c : conf.Config)
  (rotationStrategy : rotationStrategy)
  : (option Server * option error) * list Worker :=
  let logger := match conf.Logger c with
                | None => logrus_New
                | Some l => l
                end in
  let '(issuerURL, err) := url_Parse (conf.Issuer c) in
  match err with
  | Some _ => failed (fmt_Errorf "server: can't parse issuer URL" [])
  | None =>
  match conf.Storage c with
  | None => failed (errors_New "server: storage cannot be nil")
  | Some c_Storage =>
  let respTypes := if (length (conf.SupportedResponseTypes c) =? 0)%nat
                   then [responseTypeCode]
                   else conf.SupportedResponseTypes c in
  match supportedTypes respTypes ∅ with
  | inr err => failed err
  | inl supported =>
  let now := match conf.Now c with
             | None => time_Now
             | Some f => f
             end in
  let '(templates, err) := loadTemplates (conf.Web c) (conf.Issuer c) in
  match err with
  | Some err => failed (fmt_Errorf "server: failed to templates: %v" [arg_v err])
  | None =>
  let s := {| issuerURL := issuerURL;
              connectors := ∅;
              storage_ := newKeyCacher c_Storage (Some now);
              mux := [];
              templates_ := templates;
              skipApproval := conf.SkipApprovalScreen c;
              passwordConnector := conf.PasswordConnector c;
              supportedResponseTypes := supported;
              now_ := now;
              idTokensValidFor := value (conf.IDTokensValidFor c) (24 * Hour);
              logger := logger |} in
  let '(storageConnectors, err) := storage.ListConnectors c_Storage in
  match err with
  | Some err =>
      failed (fmt_Errorf "server: failed to list connector objects from storage: %v"
                         [arg_v err])
  | None =>
  if ((length storageConnectors =? 0)%nat && (size (connectors s) =? 0)%nat)
  then failed (errors_New "server: no connectors specified")
  else
  match openAll s storageConnectors with
  | inr err => failed err
  | inl s =>
  let registered :=
    match conf.PrometheusRegistry c with
    | None => None
    | Some registry => prometheus_Register registry
    end in
  match registered with
  | Some err =>
      failed (fmt_Errorf "server: Failed to register Prometheus HTTP metrics: %v"
                         [arg_v err])
  | None =>
  match discoveryHandler s with
  | Some err => failed err
  | None =>
  let s := set_mux s (routes (url_Path issuerURL) (conf.AllowedOrigins c)
                             (bool_decide (is_Some (conf.PrometheusRegistry c)))
                             (web.Dir (conf.Web c))) in
  ((Some s, None),
   [ keyRotation rotationStrategy now;
     garbageCollection (value (conf.GCFrequency c) (5 * Minute)) now ])
  end end end end end end end end.

(** func NewServer(ctx context.Context, c Config), returning a *Server and an error *)
Definition NewServer `{Handlers} `{Clock} (c : conf.Config)
  : (option Server * option error) * list Worker :=
  newServer c (defaultRotationStrategy (value (conf.RotateKeysAfter c) (6 * Hour))
                                       (value (conf.IDTokensValidFor c) (24 * Hour))).

(** ** Observations on the key cacher *)

(** The events a computation has added on its way from [w] to [w'],
    most recent first. *)
Definition since (w w' : Env) : list Event :=
  take (length (events w') - length (events w)) (events w').

(** Every Store among the events directly follows a reading of the clock
    that lies strictly before the NextRotation of the keys stored. *)
Fixpoint storesFresh (evs : list Event) : Prop :=
  match evs with
  | [] => True
  | ev_Store v :: older =>
      match older with
      | ev_now t :: _ => Before t (storage.NextRotation v) = true
      | _ => False
      end /\ storesFresh older
  | _ :: older => storesFresh older
  end.

(** The keys of the most recent Store, if any: what the slot holds. *)
Fixpoint lastStored (evs : list Event) : option storage.Keys :=
  match evs with
  | [] => None
  | ev_Store v :: _ => Some v
  | _ :: older => lastStored older
  end.

Definition slotInvariant (k : keyCacher) (w : Env) : Prop :=
  keys k = lastStored (events w) /\ storesFresh (events w).

(** The keys in the slot, if any, have expired for every reading of the
    clock from [w] on. *)
Definition cacheExpired (k : keyCacher) (w : Env) : Prop :=
  forall cached i, keys k = Some cached -> (nowCalls w <= i)%nat ->
    Before (now k i) (storage.NextRotation cached) = false.

(** From [w] on every read of storage returns keys, without an error,
    whose NextRotation no later reading of the clock lies before. *)
Definition storageStale (k : keyCacher) (w : Env) : Prop :=
  forall j i, (keysReads w <= j)%nat -> (nowCalls w <= i)%nat ->
    (storage.GetKeys (Storage k) j).2 = None
    /\ Before (now k i) (storage.NextRotation (storage.GetKeys (Storage k) j).1) = false.

(** ** Observations on the connector registry *)

(** The three ways in which a stored connector record cannot be opened:
    its type is no key of ConnectorsConfig, its non-empty config blob does
    not parse into the config struct of its type, or Open fails on the
    config. *)
Inductive OpenFails `{ConnectorPackages} (logger : Logger) (conn : storage.Connector)
  : Prop :=
| unknown_type :
    ConnectorsConfig !! storage.Type_ conn = None ->
    OpenFails logger conn
| unparsable_config f err :
    ConnectorsConfig !! storage.Type_ conn = Some f ->
    storage.Config conn <> "" ->
    (json_Unmarshal f (storage.Config conn) (new f)).2 = Some err ->
    OpenFails logger conn
| open_failed f err :
    ConnectorsConfig !! storage.Type_ conn = Some f ->
    (parsedConfig f conn).2 = None ->
    (Open f (parsedConfig f conn).1 (storage.ID conn) logger).2 = Some err ->
    OpenFails logger conn.

(** ** Observations on headers *)

(** Every key of the map is in canonical form, as in every header that
    net/http has read or that was filled through Add and Set. *)
Definition canonicalKeys (h : gmap string (list string)) : Prop :=
  forall key, is_Some (h !! key) -> CanonicalMIMEHeaderKey key = key.

(** The order produces every key of the map. *)
Definition enumerates (order : list string) (h : gmap string (list string)) : Prop :=
  forall key, is_Some (h !! key) -> key ∈ order.

(** ** Proof steps on lists of events and keys *)

(** Membership in a list that is written out. *)
Ltac in_list :=
  repeat first [ apply list_elem_of_here | apply list_elem_of_further ].

(** No constructor of the written-out list [H] speaks of matches. *)
Ltac not_in_list H :=
  repeat (apply elem_of_cons in H as [H|H]; [discriminate H|]);
  try (by apply elem_of_nil in H).

(** ** Concrete collaborators

    An in-memory storage and small stand-ins for the libraries, on which
    the statements below are exercised. *)

Module example.

Definition zeroPassword : storage.Password := storage.mkPassword "" "" "" "".
Definition zeroStorageConnector : storage.Connector :=
  storage.mkConnector "" "" "" "" "".

(** A storage holding passwords by email, connector records by id and the
    successive states of the keys. *)
Definition memStorage (passwords : gmap string storage.Password)
  (conns : list storage.Connector)
  (keysAt : nat -> storage.Keys * option error) : storage.Storage :=
  storage.mkStorage
    (fun email => match passwords !! email with
                  | Some p => (p, None)
                  | None => (zeroPassword, Some ErrNotFound)
                  end)
    (fun id => match List.find (fun c => String.eqb (storage.ID c) id) conns with
               | Some c => (c, None)
               | None => (zeroStorageConnector, Some ErrNotFound)
               end)
    (conns, None)
    keysAt.

Definition digit (c : ascii) : Z := Z.of_nat (nat_of_ascii c) - 48.

(** A stand-in for bcrypt on hashes of the shape $2a$NN$password: the
    cost is the two digits NN, and a password matches the hash that ends
    with it. *)
Definition toyBcrypt : Bcrypt :=
  {| bcrypt_Cost hash :=
       match String.get 4 hash, String.get 5 hash with
       | Some a, Some b => (10 * digit a + digit b, None)
       | _, _ => (0, Some (errors_New "crypto/bcrypt: hashedSecret too short"))
       end;
     bcrypt_CompareHashAndPassword hash password :=
       if String.eqb (String.substring 7 (String.length hash - 7) hash) password
       then None
       else Some (errors_New "crypto/bcrypt: hashedPassword is not the hash") |}.

Definition alice : storage.Password :=
  storage.mkPassword "a@b.c" "$2a$10$hunter2" "alice" "u1".

(** The same user with a hash stored at cost 20. *)
Definition carol : storage.Password :=
  storage.mkPassword "c@b.c" "$2a$20$hunter2" "carol" "u3".

Definition passwords : gmap string storage.Password :=
  <["a@b.c" := alice]> (<["c@b.c" := carol]> ∅).

Definition noKeys : nat -> storage.Keys * option error :=
  fun _ => (storage.mkKeys "" "" [] 0, Some ErrNotFound).

Definition db : passwordDB := mkPasswordDB (memStorage passwords [] noKeys).

Definition aliceIdentity : connector.Identity :=
  connector.mkIdentity "u1" "old name" "al" "a@b.c" true ["admins"].

(** Keys that rotate at time 100 and keys that rotated at time 40. *)
Definition K1 : storage.Keys := storage.mkKeys "priv1" "pub1" [] 100.
Definition K2 : storage.Keys := storage.mkKeys "priv2" "pub2" [("pub1", 64)] 40.

(** A storage whose first read of the keys gives K1 and every later read
    the older K2, as after a restore from a backup. *)
Definition restored : storage.Storage :=
  memStorage passwords []
             (fun n => match n with
                       | O => (K1, None)
                       | S _ => (K2, None)
                       end).

(** Keys that rotate at time 52, and a storage that keeps returning them. *)
Definition K3 : storage.Keys := storage.mkKeys "priv3" "pub3" [("pub2", 60)] 52.
Definition steady : storage.Storage := memStorage passwords [] (fun _ => (K3, None)).

(** A clock that stands at 50, and one that reads 50, 51, 52, ... *)
Definition at50 : nat -> Time := fun _ => 50.
Definition from50 : nat -> Time := fun n => 50 + Z.of_nat n.

Definition toyClock : Clock := {| time_Now := from50 |}.
#[local] Existing Instance toyClock.

(** A connector package whose configuration is the blob itself: a blob
    parses when it starts with a brace, and Open fails on the blob
    {broken}. *)
Definition toyConfig : ConfigType string :=
  {| configStruct := string;
     new := "";
     json_Unmarshal data cfg :=
       if String.prefix "{" data then (data, None)
       else (cfg, Some (errors_New "invalid character looking for beginning of value"));
     Open cfg id logger :=
       if String.eqb cfg "{broken}"
       then (connector.nil, Some (errors_New "cannot reach the upstream"))
       else (connector.opened (id ++ ":" ++ cfg), None) |}.

Definition toyConnectors : ConnectorPackages :=
  {| Inst := string;
     mock_CallbackConfig := toyConfig;
     mock_PasswordConfig := toyConfig;
     ldap_Config := toyConfig;
     github_Config := toyConfig;
     gitlab_Config := toyConfig;
     oidc_Config := toyConfig;
     oauth_Config := toyConfig;
     saml_Config := toyConfig;
     cf_Config := toyConfig;
     authproxy_Config := toyConfig;
     linkedin_Config := toyConfig;
     microsoft_Config := toyConfig |}.
#[local] Existing Instance toyConnectors.

Definition toyPlatform : Platform :=
  {| URL := string;
     url_Parse rawurl :=
       if String.prefix "http" rawurl then (rawurl, None)
       else ("", Some (errors_New "parse: missing protocol scheme"));
     url_Path u := String.substring 21 (String.length u - 21) u;
     path_Join a b := a ++ b;
     FileSystem := string;
     Registry := unit;
     prometheus_Register _ := None;
     logrus_New := [] |}.
#[local] Existing Instance toyPlatform.

Definition toyPackage : @Package toyPlatform :=
  {| rotationStrategy := (Duration * Duration)%type;
     defaultRotationStrategy rotationFrequency idTokenValidFor :=
       (rotationFrequency, idTokenValidFor);
     templates := unit;
     loadTemplates _ _ := (tt, None);
     Response := string |}.
#[local] Existing Instance toyPackage.

Definition toyHandlers : @Handlers toyPlatform toyPackage toyConnectors :=
  {| discoveryHandler _ := None;
     handleConnectorCallback srv r :=
       ("callback handled" : @Response toyPlatform toyPackage, srv) |}.

Definition mockRecord : storage.Connector :=
  storage.mkConnector "mock" "mockCallback" "Mock" "1" "".

(** The same record after an update of its configuration in storage. *)
Definition mockRecord2 : storage.Connector :=
  storage.mkConnector "mock" "mockCallback" "Mock" "2" "{}".

(** A record of a type no connector package declares. *)
Definition bogusRecord : storage.Connector :=
  storage.mkConnector "bogus" "carrier-pigeon" "Bogus" "1" "".

Definition unparsableRecord : storage.Connector :=
  storage.mkConnector "ldap" "ldap" "LDAP" "1" "host: example".

Definition brokenRecord : storage.Connector :=
  storage.mkConnector "gh" "github" "GitHub" "1" "{broken}".

Definition webConfig : @web.WebConfig toyPlatform :=
  {| web.Dir := "web"; web.LogoURL := ""; web.Issuer := ""; web.Theme := "" |}.

(** A configuration that leaves every optional field at its zero value. *)
Definition minimalConfig : @conf.Config toyPlatform :=
  {| conf.Issuer := "http://127.0.0.1:5556/dex";
     conf.Storage := Some (memStorage passwords [mockRecord] noKeys);
     conf.SupportedResponseTypes := [];
     conf.AllowedOrigins := [];
     conf.SkipApprovalScreen := false;
     conf.PasswordConnector := "";
     conf.RotateKeysAfter := 0;
     conf.IDTokensValidFor := 0;
     conf.GCFrequency := 0;
     conf.Now := None;
     conf.Web := webConfig;
     conf.Logger := None;
     conf.PrometheusRegistry := None |}.


(** Configurations that ask for a response type the server does not
    know: one otherwise complete, one that also lacks a storage. *)
Definition unsupportedConfig : @conf.Config toyPlatform :=
  {| conf.Issuer := "http://127.0.0.1:5556/dex";
     conf.Storage := Some (memStorage passwords [mockRecord] noKeys);
     conf.SupportedResponseTypes := ["code"; "bogus"; "token"];
     conf.AllowedOrigins := [];
     conf.SkipApprovalScreen := false;
     conf.PasswordConnector := "";
     conf.RotateKeysAfter := 0;
     conf.IDTokensValidFor := 0;
     conf.GCFrequency := 0;
     conf.Now := None;
     conf.Web := webConfig;
     conf.Logger := None;
     conf.PrometheusRegistry := None |}.

Definition unsupportedNoStorage : @conf.Config toyPlatform :=
  {| conf.Issuer := "http://127.0.0.1:5556/dex";
     conf.Storage := None;
     conf.SupportedResponseTypes := ["bogus"];
     conf.AllowedOrigins := [];
     conf.SkipApprovalScreen := false;
     conf.PasswordConnector := "";
     conf.RotateKeysAfter := 0;
     conf.IDTokensValidFor := 0;
     conf.GCFrequency := 0;
     conf.Now := None;
     conf.Web := webConfig;
     conf.Logger := None;
     conf.PrometheusRegistry := None |}.

(** A server with no connector opened yet, over a storage holding the
    given connector records. *)
Definition emptyServer (conns : list storage.Connector)
  : @Server toyPlatform toyPackage toyConnectors :=
  {| issuerURL := "http://127.0.0.1:5556/dex";
     connectors := ∅;
     storage_ := @newKeyCacher toyClock (memStorage passwords conns noKeys) None;
     mux := [];
     templates_ := tt;
     skipApproval := false;
     passwordConnector := "";
     supportedResponseTypes := {[ "code" := true ]};
     now_ := from50;
     idTokensValidFor := 24 * Hour;
     logger := [] |}.

(** The header lines of a request that tries to pass for an authproxy. *)
Definition spoofedLines : list (string * string) :=
  [ ("Host", "dex.example.com");
    ("x-remote-user", "admin");
    ("X-REMOTE-GROUP", "wheel");
    ("Cookie", "session=1") ].

Definition spoofedRequest : Request :=
  mkRequest "GET" "/dex/callback" (readHeader spoofedLines) "".

(** A request built by hand whose header map holds a key that is not in
    canonical form. *)
Definition handBuiltRequest : Request :=
  mkRequest "GET" "/dex/callback" {[ "x-remote-user" := ["admin"] ]} "".

End example.

(** ** The garbage collection worker *)

(** Modelled from the spec: the struct storage.GCResult is declared in the
    storage package; the spec gives the result of GarbageCollect(now) as
    the two counts {AuthRequests, AuthCodes}. *)
Record GCResult : Type := mkGCResult {
  AuthRequests : Z;
  AuthCodes : Z
}.

(** The case of the select that fires in one turn of the worker's loop:
    the context is done, or the timer of time.After(frequency) has
    expired. *)
Inductive Wake : Type :=
| ctx_Done
| time_After.

(** A line written to s.logger. *)
Inductive LogLine : Type :=
| Errorf (format : string) (args : list (fmt_arg error))
| Infof (format : string) (args : list (fmt_arg error)).

(** What the worker has done so far: the number of readings of its clock,
    the times it has passed to GarbageCollect and the lines it has logged,
    most recent first. *)
Record GCState : Type := mkGCState {
  gcNowCalls : nat;
  collected : list Time;
  logged : list LogLine
}.

Definition gcStart : GCState := mkGCState 0 [] [].

(** The body of the case <-time.After(frequency).  [GarbageCollect n t] is
    the answer of s.storage.GarbageCollect(t) to the n-th call, a method
    the key cacher inherits from the storage it embeds. *)
Definition garbageCollectOnce (GarbageCollect : nat -> Time -> GCResult * option error)
  (now : nat -> Time) (st : GCState) : GCState :=
  let t := now (gcNowCalls st) in
  let '(r, err) := GarbageCollect (length (collected st)) t in
  let lines :=
    match err with
    | Some err => [Errorf "garbage collection failed: %v" [arg_v err]]
    | None =>
        if (0 <? AuthRequests r) || (0 <? AuthCodes r)
        then [Infof "garbage collection run, delete auth requests=%d, auth codes=%d"
                    [arg_d (AuthRequests r); arg_d (AuthCodes r)]]
        else []
    end in
  mkGCState (S (gcNowCalls st)) (t :: collected st) (lines ++ logged st)%list.

(** func (s *Server) startGarbageCollection(ctx, frequency, now): the loop
    of the goroutine, run on the cases that fire in turn.  The result says
    whether the goroutine has returned; it has not when the cases run out,
    the worker then waits in its select. *)
Fixpoint startGarbageCollection (GarbageCollect : nat -> Time -> GCResult * option error)
  (now : nat -> Time) (wakes : list Wake) (st : GCState) : GCState * bool :=
  match wakes with
  | [] => (st, false)
  | ctx_Done :: _ => (st, true)
  | time_After :: rest =>
      startGarbageCollection GarbageCollect now rest
                             (garbageCollectOnce GarbageCollect now st)
  end.

(** The cases that fire before the context is done. *)
Fixpoint beforeDone (wakes : list Wake) : list Wake :=
  match wakes with
  | [] => []
  | ctx_Done :: _ => []
  | time_After :: rest => time_After :: beforeDone rest
  end.

(** ** Further observations *)

(** The identity Login builds from a password record. *)
Definition identityOf (p : storage.Password) : connector.Identity :=
  connector.mkIdentity (storage.UserID p) (storage.Username p) ""
                       (storage.Email p) true [].

(** The keys of a header map that the loop of the /callback route
    deletes: the canonical forms of the keys of the map that start with
    x-remote-. *)
Definition deletedKey (h : gmap string (list string)) (key : string) : Prop :=
  exists k, is_Some (h !! k) /\ isRemoteKey k = true /\ CanonicalMIMEHeaderKey k = key.

(** The keys in the slot are an answer that storage has given without
    error. *)
Definition slotFromStorage (k : keyCacher) (w : Env) : Prop :=
  forall cached, keys k = Some cached ->
    exists j, (j < keysReads w)%nat /\ storage.GetKeys (Storage k) j = (cached, None).

(** ** Further concrete collaborators *)

Module sample.

(** A garbage collection that fails on its second call and otherwise
    deletes as many auth requests as the number of the call. *)
Definition collect : nat -> Time -> GCResult * option error :=
  fun n _ =>
    match n with
    | 1%nat => (mkGCResult 0 0, Some (errors_New "database is locked"))
    | _ => (mkGCResult (Z.of_nat n) 0, None)
    end.

(** A storage whose password lookup fails for a reason of its own. *)
Definition unreachable : storage.Storage :=
  storage.mkStorage
    (fun _ => (storage.mkPassword "" "" "" "", Some (errors_New "connection refused")))
    (fun _ => (storage.mkConnector "" "" "" "" "", Some (errors_New "connection refused")))
    ([], Some (errors_New "connection refused"))
    (fun _ => (storage.mkKeys "" "" [] 0, Some (errors_New "connection refused"))).

(** A header map holding a remote key under both spellings. *)
Definition twoSpellings : gmap string (list string) :=
  <["x-remote-user" := ["admin"]]> (<["X-Remote-User" := ["root"]]>
    (<["Accept" := ["*/*"]]> ∅)).

(** A record of the local type with a config blob that is no JSON. *)
Definition localRecord : storage.Connector :=
  storage.mkConnector "local" "local" "Email" "7" "not json".

#[local] Existing Instance example.toyClock.
#[local] Existing Instance example.toyPlatform.
#[local] Existing Instance example.toyPackage.
#[local] Existing Instance example.toyConnectors.

(** A server whose storage cannot be reached. *)
Definition cutOff : @Server example.toyPlatform example.toyPackage example.toyConnectors :=
  {| issuerURL := "http://127.0.0.1:5556/dex";
     connectors := {[ "mock" := mkServerConnector "1" (connector.opened "mock:") ]};
     storage_ := newKeyCacher unreachable None;
     mux := [];
     templates_ := tt;
     skipApproval := false;
     passwordConnector := "";
     supportedResponseTypes := {[ "code" := true ]};
     now_ := example.from50;
     idTokensValidFor := 24 * Hour;
     logger := [] |}.

End sample.

(** * Properties *)

(** ** The local password connector *)

Section PasswordDB.
Context `{Bcrypt}.

(** checkCost accepts a hash whose cost bcrypt reads inside [4, 16]. *)
Lemma checkCost_in_range (hash : string) (cost : Z) :
  bcrypt_Cost hash = (cost, None) ->
  4 <= cost <= 16 ->
  checkCost hash = (None, [call_Cost hash]).
Proof.
  intros Hcost [Hlo Hhi]. unfold checkCost, tbind, tcall, tret.
  rewrite Hcost. unfold bcrypt_MinCost, upBoundCost.
  destruct (Z.ltb_spec cost 4) as [?|_]; [lia|].
  destruct (Z.ltb_spec 16 cost) as [?|_]; [lia|]. reflexivity.
Qed.

(** checkCost rejects a hash whose cost bcrypt reads outside [4, 16]. *)
Lemma checkCost_out_of_range (hash : string) (cost : Z) :
  bcrypt_Cost hash = (cost, None) ->
  cost < 4 \/ 16 < cost ->
  checkCost hash = (Some (errCostOutOfRange cost), [call_Cost hash]).
Proof.
  intros Hcost Hout. unfold checkCost, tbind, tcall, tret.
  rewrite Hcost. unfold bcrypt_MinCost, upBoundCost.
  destruct (Z.ltb_spec cost 4) as [?|?]; [reflexivity|].
  destruct (Z.ltb_spec 16 cost) as [?|?]; [reflexivity|lia].
Qed.

(** C4: for a stored password record whose hash has a cost outside
    [4, 16], Login returns the cost-out-of-range error, which is not the
    (zero identity, false, nil) answer given to wrong credentials, and it
    never calls bcrypt.CompareHashAndPassword. *)
Theorem Login_rejects_cost_out_of_range
  (db : passwordDB) (email password : string) (p : storage.Password) (cost : Z) :
  storage.GetPassword (s db) email = (p, None) ->
  bcrypt_Cost (storage.Hash p) = (cost, None) ->
  cost < 4 \/ 16 < cost ->
  (passwordDB_Login db email password).1
    = (connector.zeroIdentity, false, Some (errCostOutOfRange cost))
  /\ (passwordDB_Login db email password).1 <> (connector.zeroIdentity, false, None)
  /\ forall hash pw,
       call_CompareHashAndPassword hash pw ∉ (passwordDB_Login db email password).2.
Proof.
  intros Hget Hcost Hout.
  assert (Hrun : passwordDB_Login db email password
                 = ((connector.zeroIdentity, false, Some (errCostOutOfRange cost)),
                    [call_GetPassword email; call_Cost (storage.Hash p)])).
  { unfold passwordDB_Login, tbind, tcall. rewrite Hget.
    rewrite (checkCost_out_of_range _ _ Hcost Hout). reflexivity. }
  rewrite Hrun. cbn [fst snd]. split; [reflexivity|]. split; [discriminate|].
  intros hash pw Hin.
  apply elem_of_cons in Hin as [Heq|Hin]; [discriminate|].
  apply elem_of_cons in Hin as [Heq|Hin]; [discriminate|].
  by apply elem_of_nil in Hin.
Qed.

(** C5: an email unknown to the password store and a stored user (hash
    cost inside [4, 16]) presented with a password that does not match
    get the same answer from Login: the zero identity, false and no
    error. *)
Theorem Login_failure_is_opaque
  (db : passwordDB) (unknown known password password' : string)
  (p0 p : storage.Password) (cost : Z) (mismatch : error) :
  storage.GetPassword (s db) unknown = (p0, Some ErrNotFound) ->
  storage.GetPassword (s db) known = (p, None) ->
  bcrypt_Cost (storage.Hash p) = (cost, None) ->
  4 <= cost <= 16 ->
  bcrypt_CompareHashAndPassword (storage.Hash p) password' = Some mismatch ->
  (passwordDB_Login db unknown password).1 = (connector.zeroIdentity, false, None)
  /\ (passwordDB_Login db known password').1 = (connector.zeroIdentity, false, None)
  /\ (passwordDB_Login db unknown password).1 = (passwordDB_Login db known password').1.
Proof.
  intros Hunknown Hknown Hcost Hrange Hcmp.
  assert (H1 : (passwordDB_Login db unknown password).1
               = (connector.zeroIdentity, false, None)).
  { unfold passwordDB_Login, tbind, tcall. rewrite Hunknown. reflexivity. }
  assert (H2 : (passwordDB_Login db known password').1
               = (connector.zeroIdentity, false, None)).
  { unfold passwordDB_Login, tbind, tcall. rewrite Hknown.
    rewrite (checkCost_in_range _ _ Hcost Hrange). rewrite Hcmp. reflexivity. }
  rewrite H1, H2. auto.
Qed.

End PasswordDB.

(** The Refresh of a record whose user id matches replaces the username
    and nothing else. *)
Lemma set_Username_fields (i : connector.Identity) (u : string) :
  connector.Username (connector.set_Username i u) = u
  /\ connector.UserID (connector.set_Username i u) = connector.UserID i
  /\ connector.PreferredUsername (connector.set_Username i u)
     = connector.PreferredUsername i
  /\ connector.Email (connector.set_Username i u) = connector.Email i
  /\ connector.EmailVerified (connector.set_Username i u) = connector.EmailVerified i
  /\ connector.Groups (connector.set_Username i u) = connector.Groups i.
Proof. destruct i. cbn. auto 10. Qed.

(** C9: Refresh answers user not found when the record of the email is
    absent from storage or carries another user id; when it succeeds, the
    record is there with the presented user id and the answer is the
    presented identity with the stored username, every other field as
    presented. *)
Theorem Refresh_spec (db : passwordDB) (identity : connector.Identity) :
  let got := storage.GetPassword (s db) (connector.Email identity) in
  let out := (passwordDB_Refresh db identity).1 in
  ((got.2 = Some ErrNotFound
    \/ (got.2 = None /\ storage.UserID got.1 <> connector.UserID identity)) ->
   out = (connector.zeroIdentity, Some (errors_New "user not found")))
  /\ ((got.2 = None /\ storage.UserID got.1 = connector.UserID identity) ->
      out = (connector.set_Username identity (storage.Username got.1), None))
  /\ (out.2 = None ->
      got.2 = None
      /\ storage.UserID got.1 = connector.UserID identity
      /\ connector.Username out.1 = storage.Username got.1
      /\ connector.UserID out.1 = connector.UserID identity
      /\ connector.PreferredUsername out.1 = connector.PreferredUsername identity
      /\ connector.Email out.1 = connector.Email identity
      /\ connector.EmailVerified out.1 = connector.EmailVerified identity
      /\ connector.Groups out.1 = connector.Groups identity).
Proof.
  cbv zeta. unfold passwordDB_Refresh, tbind, tcall.
  destruct (storage.GetPassword (s db) (connector.Email identity)) as [p [e|]];
    cbn [fst snd].
  - destruct e; cbn; (split; [|split]).
    all: try (intros [?|[? _]]; congruence).
    all: try (intros [? _]; congruence).
    all: try discriminate.
    all: intros [?|[? _]]; try discriminate; reflexivity.
  - destruct (String.eqb_spec (storage.UserID p) (connector.UserID identity))
      as [Heq|Hne]; cbn; (split; [|split]).
    + intros [?|[_ ?]]; [discriminate|contradiction].
    + reflexivity.
    + intros _. pose proof (set_Username_fields identity (storage.Username p)).
      intuition.
    + reflexivity.
    + intros [_ ?]. contradiction.
    + discriminate.
Qed.

(** ** The key cacher *)

Lemma take_added {A} (new old : list A) :
  take (length (new ++ old)%list - length old) (new ++ old)%list = new.
Proof.
  rewrite length_app.
  replace (length new + length old - length old)%nat with (length new) by lia.
  by rewrite take_app_length.
Qed.

Lemma since_added (w w' : Env) (new : list Event) :
  events w' = (new ++ events w)%list -> since w w' = new.
Proof. intros E. unfold since. rewrite E. apply take_added. Qed.

(** The test of the cache either serves the cached keys after one reading
    of the clock, or misses: with an empty slot and no reading, or with
    expired keys after one. *)
Lemma cachedFresh_cases (k : keyCacher) (w : Env) :
  (exists cached, keys k = Some cached
     /\ Before (now k (nowCalls w)) (storage.NextRotation cached) = true
     /\ cachedFresh k w
        = (Some cached,
           mkEnv (S (nowCalls w)) (keysReads w) (ev_now (now k (nowCalls w)) :: events w)))
  \/ (keys k = None /\ cachedFresh k w = (None, w))
  \/ (exists cached, keys k = Some cached
        /\ Before (now k (nowCalls w)) (storage.NextRotation cached) = false
        /\ cachedFresh k w
           = (None,
              mkEnv (S (nowCalls w)) (keysReads w)
                    (ev_now (now k (nowCalls w)) :: events w))).
Proof.
  unfold cachedFresh, call_now. destruct (keys k) as [cached|] eqn:Hk.
  - destruct (Before (now k (nowCalls w)) (storage.NextRotation cached)) eqn:Hb.
    + left. eauto.
    + right. right. eauto.
  - right. left. auto.
Qed.

(** The outcome of GetKeys after a miss of the cache that left the
    outside world in [w1]. *)
Lemma GetKeys_after_miss (k : keyCacher) (w w1 : Env) :
  cachedFresh k w = (None, w1) ->
  let read := storage.GetKeys (Storage k) (keysReads w1) in
  let t := now k (nowCalls w1) in
  keyCacher_GetKeys k w =
    match read.2 with
    | Some _ =>
        (read, k, mkEnv (nowCalls w1) (S (keysReads w1)) (ev_GetKeys read :: events w1))
    | None =>
        if Before t (storage.NextRotation read.1)
        then (read, mkKeyCacher (Storage k) (now k) (Some read.1),
              mkEnv (S (nowCalls w1)) (S (keysReads w1))
                    (ev_Store read.1 :: ev_now t :: ev_GetKeys read :: events w1))
        else (read, k,
              mkEnv (S (nowCalls w1)) (S (keysReads w1))
                    (ev_now t :: ev_GetKeys read :: events w1))
    end.
Proof.
  intros Hc. cbv zeta. unfold keyCacher_GetKeys. rewrite Hc.
  unfold call_Storage_GetKeys, call_now, keys_Store.
  destruct (storage.GetKeys (Storage k) (keysReads w1)) as [storageKeys [err|]];
    cbn [fst snd nowCalls keysReads events]; [reflexivity|].
  destruct (Before (now k (nowCalls w1)) (storage.NextRotation storageKeys));
    reflexivity.
Qed.

(** C1: a call of GetKeys whose slot holds keys with now() strictly before
    their NextRotation returns them and does not touch storage; any other
    call reads storage once and returns its answer, and stores that
    answer in the slot exactly when storage gave no error and now() is
    strictly before the NextRotation just read. *)
Theorem GetKeys_cache_policy (k : keyCacher) (w : Env) :
  let out := keyCacher_GetKeys k w in
  (forall cached,
      keys k = Some cached ->
      Before (now k (nowCalls w)) (storage.NextRotation cached) = true ->
      out.1.1 = (cached, None) /\ out.1.2 = k /\ keysReads out.2 = keysReads w
      /\ since w out.2 = [ev_now (now k (nowCalls w))])
  /\ ((keys k = None
       \/ exists cached, keys k = Some cached
            /\ Before (now k (nowCalls w)) (storage.NextRotation cached) = false) ->
      let read := storage.GetKeys (Storage k) (keysReads w) in
      let t := now k (nowCalls (cachedFresh k w).2) in
      out.1.1 = read /\ keysReads out.2 = S (keysReads w)
      /\ ev_GetKeys read ∈ since w out.2
      /\ (read.2 = None /\ Before t (storage.NextRotation read.1) = true ->
          keys out.1.2 = Some read.1 /\ ev_Store read.1 ∈ since w out.2)
      /\ ((exists v, ev_Store v ∈ since w out.2) ->
          read.2 = None /\ Before t (storage.NextRotation read.1) = true)
      /\ ((forall v, ev_Store v ∉ since w out.2) -> out.1.2 = k)).
Proof.
  cbv zeta. split.
  - intros cached Hk Hb. unfold keyCacher_GetKeys, cachedFresh, call_now.
    rewrite Hk, Hb. cbn [fst snd keysReads]. repeat split.
    by apply since_added.
  - intros Hmiss.
    assert (exists w1 pre, cachedFresh k w = (None, w1)
              /\ keysReads w1 = keysReads w
              /\ events w1 = (pre ++ events w)%list
              /\ forall v, ev_Store v ∉ pre) as (w1 & pre & Hc & Hr & Hpre & Hno).
    { destruct (cachedFresh_cases k w) as [(c & Hk & Hb & _)|[[Hk E]|(c & Hk & Hb & E)]].
      - destruct Hmiss as [Hn|(c' & Hk' & Hb')]; congruence.
      - exists w, []. split; [done|]. split; [done|]. split; [done|].
        intros v Hv. not_in_list Hv.
      - eexists _, [ev_now (now k (nowCalls w))].
        split; [done|]. split; [done|]. split; [done|].
        intros v Hv. not_in_list Hv. }
    rewrite (GetKeys_after_miss k w w1 Hc), Hc, Hr. cbn [snd].
    destruct (storage.GetKeys (Storage k) (keysReads w)) as [storageKeys [err|]];
      cbn [fst snd].
    + rewrite (since_added w _ (ev_GetKeys (storageKeys, Some err) :: pre));
        [|cbn; by rewrite Hpre].
      split; [done|]. split; [done|]. split; [in_list|].
      split; [intros [? _]; discriminate|].
      split; [|done].
      intros [v Hv]. not_in_list Hv. by apply Hno in Hv.
    + destruct (Before (now k (nowCalls w1)) (storage.NextRotation storageKeys)) eqn:Hb;
        cbn [fst snd keysReads keys].
      * rewrite (since_added w _ (ev_Store storageKeys :: ev_now (now k (nowCalls w1))
                                    :: ev_GetKeys (storageKeys, None) :: pre));
          [|cbn; by rewrite Hpre].
        split; [done|]. split; [done|]. split; [in_list|].
        split; [intros _; split; [done|in_list]|].
        split; [done|].
        intros Hnone. exfalso. apply (Hnone storageKeys). in_list.
      * rewrite (since_added w _ (ev_now (now k (nowCalls w1))
                                    :: ev_GetKeys (storageKeys, None) :: pre));
          [|cbn; by rewrite Hpre].
        split; [done|]. split; [done|]. split; [in_list|].
        split; [intros [_ ?]; discriminate|].
        split; [|done].
        intros [v Hv]. not_in_list Hv. by apply Hno in Hv.
Qed.

(** One call of GetKeys keeps the invariant of the slot. *)
Lemma GetKeys_keeps_slotInvariant (k : keyCacher) (w : Env) :
  slotInvariant k w ->
  slotInvariant (keyCacher_GetKeys k w).1.2 (keyCacher_GetKeys k w).2.
Proof.
  intros [Hslot Hfresh]. unfold slotInvariant.
  destruct (cachedFresh_cases k w) as [(c & Hk & Hb & E)|[[Hk E]|(c & Hk & Hb & E)]].
  - unfold keyCacher_GetKeys. rewrite E. cbn. auto.
  - rewrite (GetKeys_after_miss k w _ E).
    destruct (storage.GetKeys (Storage k) (keysReads w)) as [storageKeys [err|]];
      cbn [fst snd]; [cbn; auto|].
    destruct (Before (now k (nowCalls w)) (storage.NextRotation storageKeys)) eqn:Hb';
      cbn; auto.
  - rewrite (GetKeys_after_miss k w _ E). cbn [keysReads nowCalls events].
    destruct (storage.GetKeys (Storage k) (keysReads w)) as [storageKeys [err|]];
      cbn [fst snd]; [cbn; auto|].
    destruct (Before (now k (S (nowCalls w))) (storage.NextRotation storageKeys)) eqn:Hb';
      cbn; auto.
Qed.

Lemma GetKeys_times_S (n : nat) (k : keyCacher) (w : Env) :
  GetKeys_times (S n) k w
  = let first := keyCacher_GetKeys k w in
    let rest := GetKeys_times n first.1.2 first.2 in
    (first.1.1 :: rest.1.1, rest.1.2, rest.2).
Proof.
  cbn [GetKeys_times]. destruct (keyCacher_GetKeys k w) as [[r k1] w1].
  cbn [fst snd]. destruct (GetKeys_times n k1 w1) as [[rs k2] w2]. reflexivity.
Qed.

(** Any number of calls keeps the invariant of the slot. *)
Lemma GetKeys_times_keeps_slotInvariant (n : nat) (k : keyCacher) (w : Env) :
  slotInvariant k w ->
  slotInvariant (GetKeys_times n k w).1.2 (GetKeys_times n k w).2.
Proof.
  revert k w. induction n as [|n IH]; intros k w Hinv; [exact Hinv|].
  rewrite GetKeys_times_S. cbn [fst snd].
  apply IH. by apply GetKeys_keeps_slotInvariant.
Qed.

(** The invariant, read on the events: the keys in the slot are those of
    the most recent Store, and that Store directly followed a reading of
    the clock strictly before their NextRotation. *)
Lemma slotInvariant_stored_fresh (k : keyCacher) (w : Env) :
  slotInvariant k w ->
  keys k = None
  \/ exists v t newer older,
       keys k = Some v
       /\ events w = (newer ++ ev_Store v :: ev_now t :: older)%list
       /\ Before t (storage.NextRotation v) = true
       /\ forall v', ev_Store v' ∉ newer.
Proof.
  intros [Hslot Hfresh]. destruct (keys k) as [v|]; [right|by left].
  exists v. revert Hslot Hfresh. generalize (events w) as evs.
  induction evs as [|e evs IH]; [discriminate|].
  destruct e as [t|r|v']; cbn [lastStored storesFresh].
  - intros Hl Hf. destruct (IH Hl Hf) as (t' & newer & older & _ & E & Hb & Hno).
    exists t', (ev_now t :: newer), older.
    split; [done|]. split; [by rewrite E|]. split; [done|].
    intros v' Hv. apply elem_of_cons in Hv as [Hv|Hv]; [discriminate|]. by apply Hno in Hv.
  - intros Hl Hf. destruct (IH Hl Hf) as (t' & newer & older & _ & E & Hb & Hno).
    exists t', (ev_GetKeys r :: newer), older.
    split; [done|]. split; [by rewrite E|]. split; [done|].
    intros v' Hv. apply elem_of_cons in Hv as [Hv|Hv]; [discriminate|]. by apply Hno in Hv.
  - intros Hl [Hb _]. inversion Hl; subst v'.
    destruct evs as [|[t| |] older]; try contradiction.
    exists t, [], older. split; [done|]. split; [done|]. split; [done|].
    intros v' Hv. by apply elem_of_nil in Hv.
Qed.

(** With an expired cache over a stale storage a call reads storage,
    returns its answer and leaves the slot alone. *)
Lemma GetKeys_falls_through (k : keyCacher) (w : Env) :
  cacheExpired k w -> storageStale k w ->
  let out := keyCacher_GetKeys k w in
  out.1.1 = storage.GetKeys (Storage k) (keysReads w)
  /\ out.1.2 = k
  /\ keysReads out.2 = S (keysReads w)
  /\ (nowCalls w <= nowCalls out.2)%nat
  /\ exists new, events out.2 = (new ++ events w)%list /\ forall v, ev_Store v ∉ new.
Proof.
  intros Hexp Hstale. cbv zeta.
  assert (exists w1 pre, cachedFresh k w = (None, w1)
            /\ keysReads w1 = keysReads w
            /\ (nowCalls w <= nowCalls w1)%nat
            /\ events w1 = (pre ++ events w)%list
            /\ forall v, ev_Store v ∉ pre) as (w1 & pre & Hc & Hr & Hn & Hpre & Hno).
  { destruct (cachedFresh_cases k w) as [(c & Hk & Hb & _)|[[Hk E]|(c & Hk & Hb & E)]].
    - rewrite (Hexp c (nowCalls w) Hk) in Hb by lia. discriminate.
    - exists w, []. split; [done|]. split; [done|]. split; [lia|]. split; [done|].
      intros v Hv. not_in_list Hv.
    - eexists _, [ev_now (now k (nowCalls w))].
      split; [done|]. split; [done|]. split; [cbn; lia|]. split; [done|].
      intros v Hv. not_in_list Hv. }
  rewrite (GetKeys_after_miss k w w1 Hc), Hr.
  destruct (Hstale (keysReads w) (nowCalls w1)) as [Herr Hb]; [lia|lia|].
  destruct (storage.GetKeys (Storage k) (keysReads w)) as [storageKeys err].
  cbn [fst snd] in *. subst err. rewrite Hb. cbn [fst snd keysReads nowCalls events].
  split; [done|]. split; [done|]. split; [done|]. split; [lia|].
  eexists (ev_now _ :: ev_GetKeys _ :: pre). split; [cbn; by rewrite Hpre|].
  intros v Hv. not_in_list Hv. by apply Hno in Hv.
Qed.

(** With an expired cache over a stale storage every call of a run reads
    storage, and none stores. *)
Lemma GetKeys_times_fall_through (m : nat) (k : keyCacher) (w : Env) :
  cacheExpired k w -> storageStale k w ->
  let out := GetKeys_times m k w in
  out.1.1 = map (fun j => storage.GetKeys (Storage k) (keysReads w + j)) (seq 0 m)
  /\ out.1.2 = k
  /\ keysReads out.2 = (keysReads w + m)%nat
  /\ exists new, events out.2 = (new ++ events w)%list /\ forall v, ev_Store v ∉ new.
Proof.
  revert w. induction m as [|m IH]; intros w Hexp Hstale; cbv zeta.
  - cbn. split; [done|]. split; [done|]. split; [lia|].
    exists []. split; [done|]. intros v Hv. by apply elem_of_nil in Hv.
  - rewrite GetKeys_times_S. cbn [fst snd].
    destruct (GetKeys_falls_through k w Hexp Hstale) as (Ha & Hk & Hr & Hn & new & Hev & Hno).
    rewrite Hk.
    assert (Hexp' : cacheExpired k (keyCacher_GetKeys k w).2).
    { intros c i Hc Hi. apply (Hexp c i Hc). lia. }
    assert (Hstale' : storageStale k (keyCacher_GetKeys k w).2).
    { intros j i Hj Hi. apply Hstale; lia. }
    destruct (IH _ Hexp' Hstale') as (Ha' & Hk' & Hr' & new' & Hev' & Hno').
    rewrite Ha, Ha', Hk', Hr', Hr.
    split.
    { cbn [seq map]. f_equal; [f_equal; lia|].
      rewrite <- seq_shift, map_map. apply map_ext. intros j. f_equal. lia. }
    split; [done|]. split; [lia|].
    exists (new' ++ new)%list. split; [by rewrite Hev', Hev, app_assoc|].
    intros v Hv. apply elem_of_app in Hv as [Hv|Hv]; [by apply Hno' in Hv|by apply Hno in Hv].
Qed.

Section KeyCacher.
Context `{Clock}.

(** C10, amended: the slot of a key cacher holds nil or the keys of its
    most recent Store, which directly followed a reading of the clock
    strictly before their NextRotation; and once the keys in the slot (if
    any) have expired and storage keeps returning keys whose NextRotation
    is not after now(), every later call of GetKeys reads storage and
    none stores. *)
Theorem cache_slot_invariant (s : storage.Storage) (clock : option (nat -> Time))
  (n m : nat) :
  let reached := GetKeys_times n (newKeyCacher s clock) startEnv in
  let k := reached.1.2 in
  let w := reached.2 in
  (keys k = None
   \/ exists v t newer older,
        keys k = Some v
        /\ events w = (newer ++ ev_Store v :: ev_now t :: older)%list
        /\ Before t (storage.NextRotation v) = true
        /\ forall v', ev_Store v' ∉ newer)
  /\ (cacheExpired k w -> storageStale k w ->
      let later := GetKeys_times m k w in
      later.1.1 = map (fun j => storage.GetKeys (Storage k) (keysReads w + j)) (seq 0 m)
      /\ keysReads later.2 = (keysReads w + m)%nat
      /\ later.1.2 = k
      /\ forall v, ev_Store v ∉ since w later.2).
Proof.
  cbv zeta. split.
  - apply slotInvariant_stored_fresh, GetKeys_times_keeps_slotInvariant.
    split; [reflexivity|exact I].
  - intros Hexp Hstale.
    destruct (GetKeys_times_fall_through m _ _ Hexp Hstale)
      as (Ha & Hk & Hr & new & Hev & Hno).
    split; [done|]. split; [done|]. split; [done|].
    by rewrite (since_added _ _ new Hev).
Qed.

End KeyCacher.

(** ** The connector registry *)

Section Registry.
Context `{Package} `{ConnectorPackages}.

Lemma openWith_parse_error (f : ConfigType Inst) (logger : Logger)
  (conn : storage.Connector) (err : error) :
  (parsedConfig f conn).2 = Some err ->
  openWith f logger conn
  = (connector.nil, Some (fmt_Errorf "parse connector config: %v" [arg_v err])).
Proof.
  intros Hp. unfold openWith. destruct (parsedConfig f conn) as [cfg e].
  cbn in Hp. subst e. reflexivity.
Qed.

Lemma openWith_open_error (f : ConfigType Inst) (logger : Logger)
  (conn : storage.Connector) (err : error) :
  (parsedConfig f conn).2 = None ->
  (Open f (parsedConfig f conn).1 (storage.ID conn) logger).2 = Some err ->
  (openWith f logger conn).2
  = Some (fmt_Errorf "failed to create connector %s: %v"
                     [arg_s (storage.ID conn); arg_v err]).
Proof.
  intros Hp Ho. unfold openWith. destruct (parsedConfig f conn) as [cfg e].
  cbn in Hp, Ho. subst e.
  destruct (Open f cfg (storage.ID conn) logger) as [c e]. cbn in Ho. subst e.
  reflexivity.
Qed.

Lemma parsedConfig_nonempty (f : ConfigType Inst) (conn : storage.Connector) :
  storage.Config conn <> "" ->
  parsedConfig f conn = json_Unmarshal f (storage.Config conn) (new f).
Proof.
  intros Hne. unfold parsedConfig.
  destruct (storage.Config conn) as [|c rest]; [contradiction|reflexivity].
Qed.

(** A record that cannot be opened makes openConnector return an error. *)
Lemma openConnector_fails (logger : Logger) (conn : storage.Connector) :
  OpenFails logger conn -> is_Some (openConnector logger conn).2.
Proof.
  intros [Hty|f err Hty Hne Hp|f err Hty Hp Ho]; unfold openConnector; rewrite Hty.
  - cbn. eauto.
  - rewrite (openWith_parse_error f logger conn err); [cbn; eauto|].
    by rewrite parsedConfig_nonempty.
  - rewrite (openWith_open_error f logger conn err Hp Ho). eauto.
Qed.

(** C8: a stored connector record whose type is unknown, whose non-empty
    config blob does not parse, or whose Open fails makes openConnector
    return an error; OpenConnector, for a record that is not of the local
    type, then returns an error as well and leaves the server, and so the
    entry of the connector map for that id, as it was. *)
Theorem openConnector_error_leaves_map (lg : Logger) (conn : storage.Connector) :
  OpenFails lg conn ->
  is_Some (openConnector lg conn).2
  /\ forall s : Server,
       WithField (logger s) "connector" (storage.Name conn) = lg ->
       storage.Type_ conn <> LocalConnector ->
       is_Some (Server_OpenConnector s conn).1.2
       /\ (Server_OpenConnector s conn).2 = s
       /\ connectors (Server_OpenConnector s conn).2 !! storage.ID conn
          = connectors s !! storage.ID conn.
Proof.
  intros Hfails. pose proof (openConnector_fails _ _ Hfails) as Herr.
  split; [exact Herr|]. intros s Hlg Hlocal. unfold Server_OpenConnector.
  destruct (String.eqb_spec (storage.Type_ conn) LocalConnector) as [?|_];
    [contradiction|].
  rewrite Hlg. destruct (openConnector lg conn) as [c [e|]]; cbn in *.
  - split; [eauto|]. split; reflexivity.
  - by destruct Herr.
Qed.

(** OpenConnector, when it succeeds, files the connector it returns under
    the ID of the record, with the ResourceVersion of the record. *)
Lemma OpenConnector_success (s : Server) (conn : storage.Connector) :
  (Server_OpenConnector s conn).1.2 = None ->
  connectors (Server_OpenConnector s conn).2 !! storage.ID conn
  = Some (Server_OpenConnector s conn).1.1
  /\ ResourceVersion (Server_OpenConnector s conn).1.1 = storage.ResourceVersion conn
  /\ forall id, id <> storage.ID conn ->
       connectors (Server_OpenConnector s conn).2 !! id = connectors s !! id.
Proof.
  unfold Server_OpenConnector.
  destruct (if String.eqb (storage.Type_ conn) LocalConnector
            then (newPasswordDB (Storage (storage_ s)), None)
            else openConnector (WithField (logger s) "connector" (storage.Name conn)) conn)
    as [c [e|]]; cbn; [discriminate|].
  intros _. split; [by rewrite lookup_insert_eq|]. split; [reflexivity|].
  intros id Hne. by rewrite lookup_insert_ne.
Qed.

(** OpenConnector, when it fails, returns the zero Connector and leaves
    the server as it was. *)
Lemma OpenConnector_failure (s : Server) (conn : storage.Connector) (err : error) :
  (Server_OpenConnector s conn).1.2 = Some err ->
  (Server_OpenConnector s conn).1.1 = zeroConnector
  /\ (Server_OpenConnector s conn).2 = s.
Proof.
  unfold Server_OpenConnector.
  destruct (if String.eqb (storage.Type_ conn) LocalConnector
            then (newPasswordDB (Storage (storage_ s)), None)
            else openConnector (WithField (logger s) "connector" (storage.Name conn)) conn)
    as [c [e|]]; cbn; [auto|discriminate].
Qed.

(** C3, amended: once storage has returned the record of the id,
    getConnector returns the entry of the connector map, and leaves the
    map alone, when the entry exists and carries the ResourceVersion of
    the record; when the entry is absent or the versions differ it calls
    OpenConnector on the record: a success replaces the entry filed under
    the ID of the record by the connector returned, a failure returns an
    error and leaves the map as it was. *)
Theorem getConnector_reconciles (s : Server) (id : string) (record : storage.Connector) :
  storage.GetConnector (Storage (storage_ s)) id = (record, None) ->
  let out := Server_getConnector s id in
  let reopened := Server_OpenConnector s record in
  (forall conn,
      connectors s !! id = Some conn ->
      ResourceVersion conn = storage.ResourceVersion record ->
      out = ((conn, None), s))
  /\ ((connectors s !! id = None
       \/ exists conn, connectors s !! id = Some conn
            /\ ResourceVersion conn <> storage.ResourceVersion record) ->
      (reopened.1.2 = None ->
       out = reopened
       /\ connectors out.2 !! storage.ID record = Some out.1.1
       /\ ResourceVersion out.1.1 = storage.ResourceVersion record)
      /\ (forall err, reopened.1.2 = Some err ->
          out.1.1 = zeroConnector /\ is_Some out.1.2 /\ out.2 = s)).
Proof.
  intros Hget. cbv zeta. unfold Server_getConnector. rewrite Hget. split.
  - intros conn Hconn Hrv. rewrite Hconn, Hrv, String.eqb_refl. reflexivity.
  - intros Hmiss.
    assert (Hhit : match connectors s !! id with
                   | None => None
                   | Some conn =>
                       if negb (String.eqb (storage.ResourceVersion record)
                                           (ResourceVersion conn))
                       then None else Some conn
                   end = None).
    { destruct Hmiss as [Hn|(conn & Hconn & Hrv)]; [by rewrite Hn|].
      rewrite Hconn.
      destruct (String.eqb_spec (storage.ResourceVersion record) (ResourceVersion conn));
        [congruence|reflexivity]. }
    rewrite Hhit. split.
    + intros Hok. pose proof (OpenConnector_success s record Hok) as (Hin & Hrv & _).
      destruct (Server_OpenConnector s record) as [[c e] s']. cbn in *. subst e.
      auto.
    + intros err Herr. pose proof (OpenConnector_failure s record err Herr) as [Hz Hs].
      destruct (Server_OpenConnector s record) as [[c e] s']. cbn in *. subst e.
      cbn. eauto.
Qed.

End Registry.

(** ** Header stripping on /callback *)

(** A turn of the loop only removes keys. *)
Lemma stripStep_None (h : gmap string (list string)) (key k : string) :
  h !! k = None -> stripStep h key !! k = None.
Proof.
  intros Hk. unfold stripStep, Header_Del.
  destruct (h !! key); [|done]. destruct (isRemoteKey key); [|done].
  rewrite lookup_delete. case_decide; done.
Qed.

Lemma stripRemoteHeaders_None (order : list string) (h : gmap string (list string))
  (k : string) :
  h !! k = None -> stripRemoteHeaders order h !! k = None.
Proof.
  unfold stripRemoteHeaders. revert h.
  induction order as [|key order IH]; intros h Hk; [done|].
  cbn [fold_left]. apply IH. by apply stripStep_None.
Qed.

(** A turn of the loop keeps the keys canonical. *)
Lemma stripStep_canonicalKeys (h : gmap string (list string)) (key : string) :
  canonicalKeys h -> canonicalKeys (stripStep h key).
Proof.
  intros Hc k [v Hk]. apply Hc.
  destruct (h !! k) as [v'|] eqn:E; [eauto|].
  rewrite (stripStep_None h key k E) in Hk. discriminate.
Qed.

(** In a map with canonical keys the turn for a remote key removes it. *)
Lemma stripStep_removes (h : gmap string (list string)) (key : string) :
  canonicalKeys h -> isRemoteKey key = true -> stripStep h key !! key = None.
Proof.
  intros Hc Hr. unfold stripStep, Header_Del.
  destruct (h !! key) as [v|] eqn:E; [|done].
  rewrite Hr, (Hc key) by eauto. apply lookup_delete_eq.
Qed.

(** A turn of the loop leaves every key alone that is not remote, when
    the keys are canonical. *)
Lemma stripStep_keeps (h : gmap string (list string)) (key k : string) :
  canonicalKeys h -> isRemoteKey k = false -> stripStep h key !! k = h !! k.
Proof.
  intros Hc Hk. unfold stripStep, Header_Del.
  destruct (h !! key) as [v|] eqn:E; [|done].
  destruct (isRemoteKey key) eqn:Hr; [|done].
  rewrite (Hc key) by eauto. apply lookup_delete_ne. congruence.
Qed.

Lemma stripRemoteHeaders_removes (order : list string) (h : gmap string (list string))
  (k : string) :
  canonicalKeys h -> k ∈ order -> isRemoteKey k = true ->
  stripRemoteHeaders order h !! k = None.
Proof.
  unfold stripRemoteHeaders. revert h.
  induction order as [|key order IH]; intros h Hc Hin Hr; [by apply elem_of_nil in Hin|].
  cbn [fold_left]. apply elem_of_cons in Hin as [->|Hin].
  - apply (stripRemoteHeaders_None order). by apply stripStep_removes.
  - apply IH; [by apply stripStep_canonicalKeys|done|done].
Qed.

Lemma stripRemoteHeaders_keeps (order : list string) (h : gmap string (list string))
  (k : string) :
  canonicalKeys h -> isRemoteKey k = false ->
  stripRemoteHeaders order h !! k = h !! k.
Proof.
  unfold stripRemoteHeaders. revert h.
  induction order as [|key order IH]; intros h Hc Hk; [done|].
  cbn [fold_left]. rewrite IH; [|by apply stripStep_canonicalKeys|done].
  by apply stripStep_keeps.
Qed.

Section Callback.
Context `{Handlers}.

(** C2: for a request whose header keys are canonical, as net/http
    delivers them, the /callback route hands to handleConnectorCallback
    the same request with every key that starts with x-remote-, whatever
    the case of its letters, removed from the header, and every other
    header entry as it came; this holds for every order in which the
    runtime walks the map. *)
Theorem callback_strips_remote_headers (order : list string) (s : Server) (r : Request) :
  canonicalKeys (Header r) ->
  enumerates order (Header r) ->
  exists r',
    callbackRoute order s r = handleConnectorCallback s r'
    /\ Method r' = Method r /\ Path r' = Path r /\ Body r' = Body r
    /\ (forall key, isRemoteKey key = true -> Header r' !! key = None)
    /\ (forall key, isRemoteKey key = false -> Header r' !! key = Header r !! key).
Proof.
  intros Hc Hen.
  exists (mkRequest (Method r) (Path r) (stripRemoteHeaders order (Header r)) (Body r)).
  split; [reflexivity|]. cbn [Method Path Body Header].
  split; [done|]. split; [done|]. split; [done|]. split.
  - intros key Hr. destruct (Header r !! key) as [v|] eqn:E.
    + apply stripRemoteHeaders_removes; [done| |done]. apply Hen. eauto.
    + by apply stripRemoteHeaders_None.
  - intros key Hk. by apply stripRemoteHeaders_keeps.
Qed.

End Callback.

(** *** Canonical keys of the headers that net/http reads *)

Lemma toUpperByte_valid (c : ascii) :
  validHeaderFieldByte c = true -> validHeaderFieldByte (toUpperByte c) = true.
Proof. destruct c as [[] [] [] [] [] [] [] []]; vm_compute; congruence. Qed.

Lemma toLowerByte_valid (c : ascii) :
  validHeaderFieldByte c = true -> validHeaderFieldByte (toLowerByte c) = true.
Proof. destruct c as [[] [] [] [] [] [] [] []]; vm_compute; congruence. Qed.

Lemma toUpperByte_idem (c : ascii) : toUpperByte (toUpperByte c) = toUpperByte c.
Proof. destruct c as [[] [] [] [] [] [] [] []]; reflexivity. Qed.

Lemma toLowerByte_idem (c : ascii) : toLowerByte (toLowerByte c) = toLowerByte c.
Proof. destruct c as [[] [] [] [] [] [] [] []]; reflexivity. Qed.

Lemma canonicalize_valid (upper : bool) (s : string) :
  allValid s = true -> allValid (canonicalize upper s) = true.
Proof.
  revert upper. induction s as [|c s IH]; intros upper; [done|].
  cbn [allValid canonicalize]. intros [Hc Hs]%andb_prop.
  apply andb_true_intro. split; [|by apply IH].
  destruct upper; [by apply toUpperByte_valid|by apply toLowerByte_valid].
Qed.

Lemma canonicalize_idem (upper : bool) (s : string) :
  canonicalize upper (canonicalize upper s) = canonicalize upper s.
Proof.
  revert upper. induction s as [|c s IH]; intros upper; [done|].
  cbn [canonicalize]. destruct upper.
  - rewrite toUpperByte_idem. f_equal. apply IH.
  - rewrite toLowerByte_idem. f_equal. apply IH.
Qed.

(** CanonicalMIMEHeaderKey returns canonical keys. *)
Lemma CanonicalMIMEHeaderKey_idem (s : string) :
  CanonicalMIMEHeaderKey (CanonicalMIMEHeaderKey s) = CanonicalMIMEHeaderKey s.
Proof.
  unfold CanonicalMIMEHeaderKey. destruct (allValid s) eqn:E.
  - rewrite canonicalize_valid by done. apply canonicalize_idem.
  - by rewrite E.
Qed.

(** The header of every request that net/http has read has canonical
    keys, whatever the header lines on the wire. *)
Lemma readHeader_canonicalKeys (lines : list (string * string)) :
  canonicalKeys (readHeader lines).
Proof.
  unfold readHeader.
  assert (Hgen : forall h, canonicalKeys h -> canonicalKeys (fold_left Header_Add lines h)).
  { induction lines as [|line lines IH]; intros h Hc; [done|].
    cbn [fold_left]. apply IH. intros key [v Hk]. unfold Header_Add in Hk.
    destruct (decide (CanonicalMIMEHeaderKey line.1 = key)) as [<-|Hne].
    - apply CanonicalMIMEHeaderKey_idem.
    - rewrite lookup_insert_ne in Hk by done. apply Hc. eauto. }
  apply Hgen. intros key [v Hk]. by rewrite lookup_empty in Hk.
Qed.

(** ** Construction of the server *)

(** The loop over the response types stops at the first one that is not
    supported, and otherwise marks each of them. *)
Lemma supportedTypes_spec (respTypes : list string) (supported : gmap string bool) :
  match List.find (fun t => negb (isResponseType t)) respTypes with
  | Some bad =>
      supportedTypes respTypes supported
      = inr (fmt_Errorf "unsupported response_type %q" [arg_s bad])
  | None =>
      exists m, supportedTypes respTypes supported = inl m
        /\ forall t, m !! t = if decide (t ∈ respTypes) then Some true else supported !! t
  end.
Proof.
  revert supported. induction respTypes as [|t0 rest IH]; intros supported.
  - cbn. exists supported. split; [done|]. intros t.
    destruct (decide (t ∈ [])) as [Hin|_]; [by apply elem_of_nil in Hin|done].
  - cbn [List.find supportedTypes]. destruct (isResponseType t0); cbn [negb]; [|done].
    specialize (IH (<[t0 := true]> supported)).
    destruct (List.find _ rest); [done|].
    destruct IH as (m & Hm & Hlook). exists m. split; [done|]. intros t.
    rewrite Hlook. destruct (decide (t ∈ rest)) as [Hin|Hnin].
    + rewrite decide_True; [done|]. by apply list_elem_of_further.
    + destruct (decide (t = t0)) as [->|Hne].
      * rewrite lookup_insert_eq. rewrite decide_True; [done|]. apply list_elem_of_here.
      * rewrite lookup_insert_ne by done. rewrite decide_False; [done|].
        intros [?|?]%elem_of_cons; done.
Qed.

Lemma find_unsupported (respTypes : list string) (bad : string) :
  bad ∈ respTypes -> isResponseType bad = false ->
  exists first, List.find (fun t => negb (isResponseType t)) respTypes = Some first
    /\ first ∈ respTypes /\ isResponseType first = false.
Proof.
  intros Hin Hbad. destruct (List.find _ respTypes) as [first|] eqn:E.
  - apply List.find_some in E as [Hfin Hf]. exists first. split; [done|].
    split; [by apply list_elem_of_In|]. by apply negb_true_iff.
  - exfalso. apply list_elem_of_In in Hin.
    pose proof (List.find_none _ _ E bad Hin) as Hn. cbn in Hn. by rewrite Hbad in Hn.
Qed.

Section Construction.
Context `{Handlers} `{Clock}.

(** OpenConnector changes nothing of the server but the connector map. *)
Lemma OpenConnector_frame (s : Server) (conn : storage.Connector) :
  supportedResponseTypes (Server_OpenConnector s conn).2 = supportedResponseTypes s
  /\ idTokensValidFor (Server_OpenConnector s conn).2 = idTokensValidFor s.
Proof.
  unfold Server_OpenConnector.
  destruct (if String.eqb (storage.Type_ conn) LocalConnector
            then (newPasswordDB (Storage (storage_ s)), None)
            else openConnector (WithField (logger s) "connector" (storage.Name conn)) conn)
    as [c [e|]]; cbn; auto.
Qed.

Lemma openAll_frame (conns : list storage.Connector) (s s' : Server) :
  openAll s conns = inl s' ->
  supportedResponseTypes s' = supportedResponseTypes s
  /\ idTokensValidFor s' = idTokensValidFor s.
Proof.
  revert s. induction conns as [|conn conns IH]; intros s; cbn [openAll].
  - intros [= ->]. auto.
  - pose proof (OpenConnector_frame s conn) as [Hrt Hvalid].
    destruct (Server_OpenConnector s conn) as [[c e] s1]. cbn in Hrt, Hvalid.
    destruct e; [discriminate|]. intros Hall. apply IH in Hall as [Hrt' Hvalid'].
    split; congruence.
Qed.

(** A construction that fails returns no server and starts no worker. *)
Lemma newServer_error (c : conf.Config) (rs : rotationStrategy) (err : error) :
  (newServer c rs).1.2 = Some err ->
  (newServer c rs).1.1 = None /\ (newServer c rs).2 = [].
Proof.
  unfold newServer, failed.
  repeat (case_match; cbn [fst snd]; try (intros; split; reflexivity); try discriminate).
Qed.

(** C6, amended: a configuration that lists a response type outside
    code, id_token and token is refused: no server is returned, no worker
    is started, and there is an error; when the issuer URL parses and a
    storage is configured, that error names the first such response type
    of the list. *)
Theorem newServer_rejects_unsupported_response_type
  (c : conf.Config) (rs : rotationStrategy) (bad : string) :
  bad ∈ conf.SupportedResponseTypes c ->
  isResponseType bad = false ->
  (newServer c rs).1.1 = None
  /\ is_Some (newServer c rs).1.2
  /\ (newServer c rs).2 = []
  /\ ((url_Parse (conf.Issuer c)).2 = None ->
      is_Some (conf.Storage c) ->
      exists first,
        List.find (fun t => negb (isResponseType t)) (conf.SupportedResponseTypes c)
        = Some first
        /\ first ∈ conf.SupportedResponseTypes c
        /\ isResponseType first = false
        /\ (newServer c rs).1.2
           = Some (fmt_Errorf "unsupported response_type %q" [arg_s first])).
Proof.
  intros Hin Hbad.
  destruct (find_unsupported _ _ Hin Hbad) as (first & Hfind & Hfin & Hfbad).
  assert (Hnonempty : (length (conf.SupportedResponseTypes c) =? 0)%nat = false).
  { destruct (conf.SupportedResponseTypes c); [by apply elem_of_nil in Hin|done]. }
  assert (Herr : exists err, (newServer c rs).1.2 = Some err
            /\ ((url_Parse (conf.Issuer c)).2 = None -> is_Some (conf.Storage c) ->
                err = fmt_Errorf "unsupported response_type %q" [arg_s first])).
  { unfold newServer, failed.
    destruct (url_Parse (conf.Issuer c)) as [u [e|]]; cbn [fst snd].
    { eexists. split; [reflexivity|]. discriminate. }
    destruct (conf.Storage c) as [st|]; cbn [fst snd].
    2:{ eexists. split; [reflexivity|]. intros _ [? ?]. discriminate. }
    rewrite Hnonempty.
    pose proof (supportedTypes_spec (conf.SupportedResponseTypes c) ∅) as Hs.
    rewrite Hfind in Hs. rewrite Hs. cbn [fst snd].
    eexists. split; [reflexivity|]. done. }
  destruct Herr as (err & Herr & Hname).
  destruct (newServer_error c rs err Herr) as [Hnone Hworkers].
  split; [done|]. split; [eauto|]. split; [done|].
  intros Hurl Hst. exists first. split; [done|]. split; [done|]. split; [done|].
  by rewrite Herr, (Hname Hurl Hst).
Qed.

(** What a construction that succeeds has built. *)
Lemma newServer_success (c : conf.Config) (rs : rotationStrategy) (srv : Server)
  (workers : list Worker) :
  newServer c rs = ((Some srv, None), workers) ->
  let now := match conf.Now c with
             | None => time_Now
             | Some f => f
             end in
  let respTypes := if (length (conf.SupportedResponseTypes c) =? 0)%nat
                   then [responseTypeCode]
                   else conf.SupportedResponseTypes c in
  supportedTypes respTypes ∅ = inl (supportedResponseTypes srv)
  /\ idTokensValidFor srv = value (conf.IDTokensValidFor c) (24 * Hour)
  /\ workers = [ keyRotation rs now;
                 garbageCollection (value (conf.GCFrequency c) (5 * Minute)) now ].
Proof.
  cbv zeta. unfold newServer, failed.
  destruct (url_Parse (conf.Issuer c)) as [u [e|]]; [discriminate|].
  destruct (conf.Storage c) as [st|]; [|discriminate].
  destruct (supportedTypes _ ∅) as [supported|e] eqn:Hs; [|discriminate].
  destruct (loadTemplates (conf.Web c) (conf.Issuer c)) as [tpl [e|]]; [discriminate|].
  destruct (storage.ListConnectors st) as [conns [e|]]; [discriminate|].
  destruct (_ && _); [discriminate|].
  destruct (openAll _ conns) as [s'|e] eqn:Hopen; [|discriminate].
  destruct (match conf.PrometheusRegistry c with
            | Some registry => prometheus_Register registry
            | None => None
            end); [discriminate|].
  destruct (discoveryHandler s'); [discriminate|].
  intros [= <- <-]. apply openAll_frame in Hopen as [Hrt Hvalid]. cbn in Hrt, Hvalid.
  cbn [supportedResponseTypes idTokensValidFor set_mux]. rewrite Hrt, Hvalid. done.
Qed.

(** C7: a server that NewServer has built runs with the defaults where
    the configuration leaves a field at zero (response types [code], key
    rotation after 6 hours, ID tokens valid for 24 hours, garbage
    collection every 5 minutes) and with the configured value where the
    field is set. *)
Theorem NewServer_defaults (c : conf.Config) (srv : Server) (workers : list Worker) :
  NewServer c = ((Some srv, None), workers) ->
  let now := match conf.Now c with
             | None => time_Now
             | Some f => f
             end in
  exists rotateKeysAfter idTokensValid gcFrequency,
    workers = [ keyRotation (defaultRotationStrategy rotateKeysAfter idTokensValid) now;
                garbageCollection gcFrequency now ]
    /\ idTokensValidFor srv = idTokensValid
    /\ (conf.RotateKeysAfter c = 0 -> rotateKeysAfter = 6 * Hour)
    /\ (conf.RotateKeysAfter c <> 0 -> rotateKeysAfter = conf.RotateKeysAfter c)
    /\ (conf.IDTokensValidFor c = 0 -> idTokensValid = 24 * Hour)
    /\ (conf.IDTokensValidFor c <> 0 -> idTokensValid = conf.IDTokensValidFor c)
    /\ (conf.GCFrequency c = 0 -> gcFrequency = 5 * Minute)
    /\ (conf.GCFrequency c <> 0 -> gcFrequency = conf.GCFrequency c)
    /\ (conf.SupportedResponseTypes c = [] ->
        supportedResponseTypes srv = {[ "code" := true ]})
    /\ (conf.SupportedResponseTypes c <> [] ->
        forall t, supportedResponseTypes srv !! t
                  = if decide (t ∈ conf.SupportedResponseTypes c) then Some true else None).
Proof.
  unfold NewServer. intros Hnew. cbv zeta.
  apply newServer_success in Hnew as (Hrt & Hvalid & Hworkers).
  eexists _, _, _. split; [exact Hworkers|]. split; [exact Hvalid|].
  unfold value.
  split; [by intros ->|]. split; [intros Hne; by rewrite (proj2 (Z.eqb_neq _ _) Hne)|].
  split; [by intros ->|]. split; [intros Hne; by rewrite (proj2 (Z.eqb_neq _ _) Hne)|].
  split; [by intros ->|]. split; [intros Hne; by rewrite (proj2 (Z.eqb_neq _ _) Hne)|].
  split.
  - intros Hempty. rewrite Hempty in Hrt. cbn in Hrt. by inversion Hrt.
  - intros Hne. destruct (conf.SupportedResponseTypes c) as [|t0 rest] eqn:E; [done|].
    cbn [length Nat.eqb] in Hrt.
    pose proof (supportedTypes_spec (t0 :: rest) ∅) as Hs. rewrite Hrt in Hs.
    destruct (List.find _ (t0 :: rest)); [discriminate|].
    destruct Hs as (m & [= <-] & Hlook). intros t. rewrite Hlook.
    case_decide; [done|apply lookup_empty].
Qed.

End Construction.

(** ** The statements on concrete inputs *)

Section Examples.
Import example.
#[local] Existing Instance toyBcrypt.
#[local] Existing Instance toyClock.
#[local] Existing Instance toyPlatform.
#[local] Existing Instance toyPackage.
#[local] Existing Instance toyConnectors.
#[local] Existing Instance toyHandlers.

(** A key cacher whose slot holds K1, read at time 50. *)
Lemma GetKeys_cache_policy_witness :
  let k := mkKeyCacher restored at50 (Some K1) in
  let w := mkEnv 1 1 [ev_Store K1; ev_now 50; ev_GetKeys (K1, None)] in
  (keyCacher_GetKeys k w).1.1 = (K1, None)
  /\ (keyCacher_GetKeys k w).1.2 = k
  /\ keysReads (keyCacher_GetKeys k w).2 = 1%nat
  /\ since w (keyCacher_GetKeys k w).2 = [ev_now 50].
Proof.
  cbv zeta.
  exact (proj1 (GetKeys_cache_policy
                  (mkKeyCacher restored at50 (Some K1))
                  (mkEnv 1 1 [ev_Store K1; ev_now 50; ev_GetKeys (K1, None)]))
               K1 eq_refl eq_refl).
Defined.

(** Carol, whose hash is stored at cost 20, cannot log in. *)
Lemma Login_rejects_cost_out_of_range_witness :
  storage.GetPassword (s db) "c@b.c" = (carol, None)
  /\ bcrypt_Cost (storage.Hash carol) = (20, None)
  /\ (passwordDB_Login db "c@b.c" "hunter2").1
     = (connector.zeroIdentity, false, Some (errCostOutOfRange 20))
  /\ (passwordDB_Login db "c@b.c" "hunter2").1 <> (connector.zeroIdentity, false, None)
  /\ forall hash pw,
       call_CompareHashAndPassword hash pw ∉ (passwordDB_Login db "c@b.c" "hunter2").2.
Proof.
  split; [reflexivity|]. split; [reflexivity|].
  exact (Login_rejects_cost_out_of_range db "c@b.c" "hunter2" carol 20
           eq_refl eq_refl (or_intror eq_refl)).
Defined.

(** An unknown email and a wrong password for alice get the same answer. *)
Lemma Login_failure_is_opaque_witness :
  (passwordDB_Login db "nobody@b.c" "hunter2").1 = (connector.zeroIdentity, false, None)
  /\ (passwordDB_Login db "a@b.c" "hunter3").1 = (connector.zeroIdentity, false, None)
  /\ (passwordDB_Login db "nobody@b.c" "hunter2").1
     = (passwordDB_Login db "a@b.c" "hunter3").1.
Proof.
  exact (Login_failure_is_opaque db "nobody@b.c" "a@b.c" "hunter2" "hunter3"
           zeroPassword alice 10
           (errors_New "crypto/bcrypt: hashedPassword is not the hash")
           eq_refl eq_refl eq_refl ltac:(lia) eq_refl).
Defined.

(** Alice refreshes: her identity comes back with the stored username. *)
Lemma Refresh_spec_witness :
  (passwordDB_Refresh db aliceIdentity).1
  = (connector.mkIdentity "u1" "alice" "al" "a@b.c" true ["admins"], None).
Proof.
  exact (proj1 (proj2 (Refresh_spec db aliceIdentity)) (conj eq_refl eq_refl)).
Defined.

(** A cacher over the storage [steady] and the clock 50, 51, ...: the
    first call stores K3, the second is served from the slot, the third
    finds K3 expired; from then on every call reads storage. *)
Lemma cache_slot_invariant_witness :
  let reached := GetKeys_times 3 (newKeyCacher steady (Some from50)) startEnv in
  keys reached.1.2 = Some K3
  /\ keysReads reached.2 = 2%nat
  /\ keysReads (GetKeys_times 4 reached.1.2 reached.2).2 = 6%nat
  /\ (GetKeys_times 4 reached.1.2 reached.2).1.2 = reached.1.2
  /\ forall v, ev_Store v ∉ since reached.2 (GetKeys_times 4 reached.1.2 reached.2).2.
Proof.
  cbv zeta. split; [reflexivity|]. split; [reflexivity|].
  destruct (cache_slot_invariant steady (Some from50) 3 4) as [_ Hlater].
  assert (Hexp : cacheExpired
                   (GetKeys_times 3 (newKeyCacher steady (Some from50)) startEnv).1.2
                   (GetKeys_times 3 (newKeyCacher steady (Some from50)) startEnv).2).
  { intros cached i Hk Hi. vm_compute in Hk. inversion Hk; subst cached.
    change (4 <= i)%nat in Hi. apply Z.ltb_ge.
    change (52 <= 50 + Z.of_nat i). lia. }
  assert (Hst : storageStale
                  (GetKeys_times 3 (newKeyCacher steady (Some from50)) startEnv).1.2
                  (GetKeys_times 3 (newKeyCacher steady (Some from50)) startEnv).2).
  { intros j i Hj Hi. change (4 <= i)%nat in Hi. split; [reflexivity|].
    apply Z.ltb_ge. change (52 <= 50 + Z.of_nat i). lia. }
  destruct (Hlater Hexp Hst) as (_ & Hreads & Hslot & Hstores).
  split; [exact Hreads|]. split; [exact Hslot|exact Hstores].
Defined.

(** The order in which the keys of the spoofed request are listed by the
    map itself enumerates them. *)
Lemma spoofed_order_enumerates :
  enumerates (map_to_list (Header spoofedRequest)).*1 (Header spoofedRequest).
Proof.
  intros key [v Hk]. apply list_elem_of_fmap. exists (key, v).
  split; [reflexivity|]. by apply elem_of_map_to_list.
Qed.

(** The spoofed request reaches the handler without its two remote
    headers, and with its Host and Cookie. *)
Lemma callback_strips_remote_headers_witness :
  exists r',
    callbackRoute (map_to_list (Header spoofedRequest)).*1 (emptyServer []) spoofedRequest
    = handleConnectorCallback (emptyServer []) r'
    /\ Header r' !! "X-Remote-User" = None
    /\ Header r' !! "X-Remote-Group" = None
    /\ Header r' !! "x-remote-user" = None
    /\ Header r' !! "Host" = Some ["dex.example.com"]
    /\ Header r' !! "Cookie" = Some ["session=1"].
Proof.
  destruct (callback_strips_remote_headers
              (map_to_list (Header spoofedRequest)).*1 (emptyServer []) spoofedRequest
              (readHeader_canonicalKeys spoofedLines) spoofed_order_enumerates)
    as (r' & Hcall & _ & _ & _ & Hgone & Hkept).
  exists r'. split; [exact Hcall|].
  split; [by apply Hgone|]. split; [by apply Hgone|]. split; [by apply Hgone|].
  split; by rewrite Hkept.
Defined.

(** A key written into the header map by hand, around net/http, in a form
    that is not canonical is looked for under its canonical form by
    Header.Del and stays: the hypothesis on the keys cannot be dropped. *)
Remark hand_built_key_survives :
  ~ canonicalKeys (Header handBuiltRequest)
  /\ stripRemoteHeaders ["x-remote-user"] (Header handBuiltRequest) !! "x-remote-user"
     = Some ["admin"].
Proof.
  split; [|reflexivity]. intros Hc.
  specialize (Hc "x-remote-user" ltac:(eexists; reflexivity)). discriminate.
Qed.

(** The server has opened the mock connector at version 1; storage now
    holds version 2 of its record. *)
Lemma getConnector_reconciles_witness :
  let s := (Server_OpenConnector (emptyServer [mockRecord2]) mockRecord).2 in
  let out := Server_getConnector s "mock" in
  ResourceVersion <$> connectors s !! "mock" = Some "1"
  /\ out = Server_OpenConnector s mockRecord2
  /\ connectors out.2 !! "mock" = Some out.1.1
  /\ ResourceVersion out.1.1 = "2".
Proof.
  cbv zeta. split; [reflexivity|].
  destruct (getConnector_reconciles
              (Server_OpenConnector (emptyServer [mockRecord2]) mockRecord).2
              "mock" mockRecord2 eq_refl) as [_ Hmiss].
  destruct Hmiss as [Hok _].
  { right. eexists. split; [reflexivity|discriminate]. }
  exact (Hok eq_refl).
Defined.

(** C3 as stated fails: the record of the id bogus is in storage and the
    connector map has no entry for it, yet after getConnector the map
    still has none, because OpenConnector could not open a record of an
    unknown type. *)
Lemma getConnector_failed_open_replaces_nothing :
  let s := emptyServer [bogusRecord] in
  let out := Server_getConnector s "bogus" in
  storage.GetConnector (Storage (storage_ s)) "bogus" = (bogusRecord, None)
  /\ connectors s !! "bogus" = None
  /\ is_Some out.1.2
  /\ out.1.1 = zeroConnector
  /\ connectors out.2 !! "bogus" = None.
Proof.
  cbv zeta. split; [reflexivity|]. split; [reflexivity|].
  split; [eexists; reflexivity|]. split; reflexivity.
Qed.

(** The three kinds of records that cannot be opened, each on a server
    that has opened nothing. *)
Lemma openConnector_error_leaves_map_witness :
  (is_Some (openConnector [("connector", "Bogus")] bogusRecord).2
   /\ (Server_OpenConnector (emptyServer []) bogusRecord).2 = emptyServer [])
  /\ (is_Some (openConnector [("connector", "LDAP")] unparsableRecord).2
      /\ (Server_OpenConnector (emptyServer []) unparsableRecord).2 = emptyServer [])
  /\ (is_Some (openConnector [("connector", "GitHub")] brokenRecord).2
      /\ (Server_OpenConnector (emptyServer []) brokenRecord).2 = emptyServer []).
Proof.
  split; [|split].
  - destruct (openConnector_error_leaves_map [("connector", "Bogus")] bogusRecord)
      as [Herr Hmap]; [by apply unknown_type|].
    split; [exact Herr|]. by apply Hmap.
  - destruct (openConnector_error_leaves_map [("connector", "LDAP")] unparsableRecord)
      as [Herr Hmap].
    { eapply unparsable_config; [reflexivity|discriminate|reflexivity]. }
    split; [exact Herr|]. by apply Hmap.
  - destruct (openConnector_error_leaves_map [("connector", "GitHub")] brokenRecord)
      as [Herr Hmap].
    { eapply open_failed; reflexivity. }
    split; [exact Herr|]. by apply Hmap.
Defined.

(** The configuration that lists bogus between code and token. *)
Lemma newServer_rejects_unsupported_response_type_witness :
  (NewServer unsupportedConfig).1.1 = None
  /\ (NewServer unsupportedConfig).2 = []
  /\ (NewServer unsupportedConfig).1.2
     = Some (fmt_Errorf "unsupported response_type %q" [arg_s "bogus"]).
Proof.
  destruct (newServer_rejects_unsupported_response_type unsupportedConfig
              (defaultRotationStrategy (6 * Hour) (24 * Hour)) "bogus")
    as (Hnone & _ & Hworkers & Hname); [in_list|reflexivity|].
  split; [exact Hnone|]. split; [exact Hworkers|].
  destruct Hname as (first & Hfind & _ & _ & Herr);
    [reflexivity|eexists; reflexivity|].
  vm_compute in Hfind. inversion Hfind; subst first. exact Herr.
Defined.

(** C6 as stated fails: this configuration lists the response type
    bogus, and the error of the construction is about the missing
    storage; it does not name the response type. *)
Lemma newServer_nil_storage_reported_first :
  "bogus" ∈ conf.SupportedResponseTypes unsupportedNoStorage
  /\ isResponseType "bogus" = false
  /\ (NewServer unsupportedNoStorage).1.2
     = Some (errors_New "server: storage cannot be nil")
  /\ (NewServer unsupportedNoStorage).1.2
     <> Some (fmt_Errorf "unsupported response_type %q" [arg_s "bogus"]).
Proof.
  split; [in_list|]. split; [reflexivity|]. split; [reflexivity|discriminate].
Qed.

(** The configuration that sets no optional field gets every default. *)
Lemma NewServer_defaults_witness :
  exists srv workers,
    NewServer minimalConfig = ((Some srv, None), workers)
    /\ workers = [ keyRotation (defaultRotationStrategy (6 * Hour) (24 * Hour)) time_Now;
                   garbageCollection (5 * Minute) time_Now ]
    /\ idTokensValidFor srv = 24 * Hour
    /\ supportedResponseTypes srv = {[ "code" := true ]}.
Proof.
  destruct (NewServer minimalConfig) as [[[srv|] [err|]] workers] eqn:Hnew;
    try (vm_compute in Hnew; discriminate).
  exists srv, workers. split; [reflexivity|].
  destruct (NewServer_defaults minimalConfig srv workers Hnew)
    as (r & v & g & Hw & Hv & Hr0 & _ & Hv0 & _ & Hg0 & _ & Hs0 & _).
  rewrite (Hr0 eq_refl), (Hv0 eq_refl), (Hg0 eq_refl) in *.
  split; [exact Hw|]. split; [exact Hv|]. exact (Hs0 eq_refl).
Defined.

(** C10 as stated fails: the first call stores K1 at time 50; from then on
    storage keeps returning K2, whose NextRotation 40 is not after now(),
    and the second call still serves K1 from the slot without reading
    storage. *)
Lemma stale_storage_behind_fresh_cache :
  let first := keyCacher_GetKeys (newKeyCacher restored (Some at50)) startEnv in
  let second := keyCacher_GetKeys first.1.2 first.2 in
  storageStale first.1.2 first.2
  /\ storage.GetKeys restored (keysReads first.2) = (K2, None)
  /\ second.1.1 = (K1, None)
  /\ keysReads second.2 = keysReads first.2
  /\ since first.2 second.2 = [ev_now 50].
Proof.
  cbv zeta. split; [|repeat split].
  intros j i Hj Hi. change (1 <= j)%nat in Hj.
  destruct j as [|j]; [lia|]. split; reflexivity.
Qed.

End Examples.

(** * Further properties *)

(** ** The local password connector *)

Section PasswordDBMore.
Context `{Bcrypt}.

(** checkCost calls bcrypt.Cost and nothing else. *)
Lemma checkCost_trace (hash : string) : (checkCost hash).2 = [call_Cost hash].
Proof.
  unfold checkCost, tbind, tcall, tret. destruct (bcrypt_Cost hash) as [cost [e|]];
    [reflexivity|].
  destruct (cost <? bcrypt_MinCost); [reflexivity|].
  destruct (upBoundCost <? cost); reflexivity.
Qed.

(** A successful Login returns the identity of the stored record. *)
Lemma Login_success_identity (db : passwordDB) (email password : string) :
  (passwordDB_Login db email password).1.1.2 = true ->
  (passwordDB_Login db email password).1
  = (identityOf (storage.GetPassword (s db) email).1, true, None).
Proof.
  unfold passwordDB_Login, tbind, tcall, tret.
  destruct (storage.GetPassword (s db) email) as [p [e|]]; cbn [fst snd].
  - destruct (negb (is_ErrNotFound e)); discriminate.
  - destruct (checkCost (storage.Hash p)) as [[e|] t]; cbn [fst snd]; [discriminate|].
    destruct (bcrypt_CompareHashAndPassword (storage.Hash p) password) as [e|]; cbn;
      [discriminate|reflexivity].
Qed.

(** X1: Login reports success exactly when storage holds a record for the
    email, checkCost accepts its hash and bcrypt finds the password to
    match the hash; the identity is then built from the stored record,
    with the email marked verified, and there is no error. *)
Theorem Login_succeeds_iff (db : passwordDB) (email password : string) :
  let out := (passwordDB_Login db email password).1 in
  let got := storage.GetPassword (s db) email in
  (out.1.2 = true <->
   got.2 = None
   /\ (checkCost (storage.Hash got.1)).1 = None
   /\ bcrypt_CompareHashAndPassword (storage.Hash got.1) password = None)
  /\ (out.1.2 = true -> out = (identityOf got.1, true, None)).
Proof.
  cbv zeta. unfold passwordDB_Login, tbind, tcall, tret.
  destruct (storage.GetPassword (s db) email) as [p [e|]]; cbn [fst snd].
  - destruct (negb (is_ErrNotFound e)); cbn; split;
      try (split; [discriminate|intros (? & _); discriminate]); discriminate.
  - destruct (checkCost (storage.Hash p)) as [[e|] t]; cbn [fst snd].
    + cbn. split; [split; [discriminate|intros (_ & ? & _); discriminate]|discriminate].
    + destruct (bcrypt_CompareHashAndPassword (storage.Hash p) password) as [e|]; cbn.
      * split; [split; [discriminate|intros (_ & _ & ?); discriminate]|discriminate].
      * split; [split; auto|reflexivity].
Qed.

(** X2: whenever Login does not report success, or returns an error, the
    identity it returns is the zero identity: nothing of a stored record
    leaves a failed login. *)
Theorem Login_failure_returns_zero_identity (db : passwordDB) (email password : string) :
  let out := (passwordDB_Login db email password).1 in
  (out.1.2 = false \/ out.2 <> None) -> out.1.1 = connector.zeroIdentity.
Proof.
  cbv zeta. unfold passwordDB_Login, tbind, tcall, tret.
  destruct (storage.GetPassword (s db) email) as [p [e|]]; cbn [fst snd].
  - destruct (negb (is_ErrNotFound e)); reflexivity.
  - destruct (checkCost (storage.Hash p)) as [[e|] t]; cbn [fst snd]; [reflexivity|].
    destruct (bcrypt_CompareHashAndPassword (storage.Hash p) password) as [e|]; cbn;
      [reflexivity|].
    intros [?|?]; [discriminate|contradiction].
Qed.

(** X3: an error of the storage other than ErrNotFound is not turned
    into the answer for wrong credentials: Login returns it wrapped as
    get password, and does not call bcrypt. *)
Theorem Login_storage_error (db : passwordDB) (email password : string)
  (p : storage.Password) (err : error) :
  storage.GetPassword (s db) email = (p, Some err) ->
  err <> ErrNotFound ->
  passwordDB_Login db email password
  = ((connector.zeroIdentity, false, Some (fmt_Errorf "get password: %v" [arg_v err])),
     [call_GetPassword email]).
Proof.
  intros Hget Hne. unfold passwordDB_Login, tbind, tcall, tret. rewrite Hget.
  destruct err; [contradiction|reflexivity|reflexivity].
Qed.

(** X4: the calls of Login follow a fixed order, and each one is made
    only after the one before has succeeded: the lookup of the email
    first, then the reading of the cost, then the comparison with the
    password as the caller typed it. *)
Theorem Login_call_order (db : passwordDB) (email password : string) :
  let calls := (passwordDB_Login db email password).2 in
  let got := storage.GetPassword (s db) email in
  let hash := storage.Hash got.1 in
  calls = [call_GetPassword email]
  \/ (got.2 = None /\ calls = [call_GetPassword email; call_Cost hash])
  \/ (got.2 = None /\ (checkCost hash).1 = None
      /\ calls = [call_GetPassword email; call_Cost hash;
                  call_CompareHashAndPassword hash password]).
Proof.
  cbv zeta. unfold passwordDB_Login, tbind, tcall, tret.
  destruct (storage.GetPassword (s db) email) as [p [e|]]; cbn [fst snd].
  - left. destruct (negb (is_ErrNotFound e)); reflexivity.
  - pose proof (checkCost_trace (storage.Hash p)) as Ht.
    destruct (checkCost (storage.Hash p)) as [[e|] t]; cbn [fst snd] in *; subst t.
    + right. left. auto.
    + right. right.
      destruct (bcrypt_CompareHashAndPassword (storage.Hash p) password); auto.
Qed.

End PasswordDBMore.

(** X5: Refresh looks the presented email up once and calls nothing
    else, bcrypt in particular; and whenever it returns an error the
    identity it returns is the zero identity. *)
Theorem Refresh_one_lookup (db : passwordDB) (identity : connector.Identity) :
  (passwordDB_Refresh db identity).2 = [call_GetPassword (connector.Email identity)]
  /\ ((passwordDB_Refresh db identity).1.2 <> None ->
      (passwordDB_Refresh db identity).1.1 = connector.zeroIdentity).
Proof.
  unfold passwordDB_Refresh, tbind, tcall, tret.
  destruct (storage.GetPassword (s db) (connector.Email identity)) as [p [e|]];
    cbn [fst snd].
  - destruct (is_ErrNotFound e); cbn; auto.
  - destruct (negb _); cbn; [auto|]. split; [reflexivity|contradiction].
Qed.

(** X6: an error of the storage other than ErrNotFound makes Refresh
    return that error wrapped as get password, and not user not found. *)
Theorem Refresh_storage_error (db : passwordDB) (identity : connector.Identity)
  (p : storage.Password) (err : error) :
  storage.GetPassword (s db) (connector.Email identity) = (p, Some err) ->
  err <> ErrNotFound ->
  (passwordDB_Refresh db identity).1
  = (connector.zeroIdentity, Some (fmt_Errorf "get password: %v" [arg_v err])).
Proof.
  intros Hget Hne. unfold passwordDB_Refresh, tbind, tcall, tret. rewrite Hget.
  destruct err; [contradiction|reflexivity|reflexivity].
Qed.

(** X7: Refresh is idempotent: an identity that Refresh has returned
    without error is returned as it is by a second Refresh against the
    same storage. *)
Theorem Refresh_idempotent (db : passwordDB) (identity : connector.Identity) :
  let once := (passwordDB_Refresh db identity).1 in
  once.2 = None ->
  (passwordDB_Refresh db once.1).1 = once.
Proof.
  cbv zeta. unfold passwordDB_Refresh, tbind, tcall, tret.
  destruct (storage.GetPassword (s db) (connector.Email identity)) as [p [e|]] eqn:Hget;
    cbn [fst snd].
  - destruct (is_ErrNotFound e); discriminate.
  - destruct (String.eqb_spec (storage.UserID p) (connector.UserID identity))
      as [Heq|Hne]; cbn [negb fst snd]; [|discriminate].
    intros _. destruct identity as [uid uname pref mail ver groups]. cbn in *.
    rewrite Hget. cbn. rewrite (proj2 (String.eqb_eq _ _) Heq). reflexivity.
Qed.

Section LoginRefresh.
Context `{Bcrypt}.

(** X8: the identity of a successful Login survives a Refresh, apart
    from the fields Login leaves empty: when storage returns the record
    under the email the record carries, Refresh returns that identity
    unchanged and without error. *)
Theorem Login_then_Refresh (db : passwordDB) (email password : string) :
  let login := (passwordDB_Login db email password).1 in
  let p := (storage.GetPassword (s db) email).1 in
  login.1.2 = true ->
  storage.GetPassword (s db) (storage.Email p) = (p, None) ->
  (passwordDB_Refresh db login.1.1).1 = (login.1.1, None).
Proof.
  cbv zeta. intros Hok Hsame.
  rewrite (Login_success_identity db email password Hok). cbn [fst snd].
  unfold passwordDB_Refresh, tbind, tcall, tret, identityOf. cbn [connector.Email].
  rewrite Hsame. cbn. rewrite String.eqb_refl. reflexivity.
Qed.

End LoginRefresh.

(** ** The key cacher *)

(** One call of GetKeys reads the clock at most twice and storage at most
    once, never un-reads them, and leaves the storage and the clock of
    the cacher as they are. *)
Lemma GetKeys_frame (k : keyCacher) (w : Env) :
  let out := keyCacher_GetKeys k w in
  (nowCalls w <= nowCalls out.2 <= nowCalls w + 2)%nat
  /\ (keysReads w <= keysReads out.2 <= keysReads w + 1)%nat
  /\ Storage out.1.2 = Storage k
  /\ now out.1.2 = now k.
Proof.
  cbv zeta.
  destruct (cachedFresh_cases k w) as [(c & Hk & Hb & E)|[[Hk E]|(c & Hk & Hb & E)]].
  - unfold keyCacher_GetKeys. rewrite E. cbn. repeat split; (lia || reflexivity).
  - rewrite (GetKeys_after_miss k w _ E).
    destruct (storage.GetKeys (Storage k) (keysReads w)) as [sk [err|]]; cbn [fst snd].
    + cbn. repeat split; (lia || reflexivity).
    + match goal with |- context [Before ?a ?b] => destruct (Before a b) end; cbn; repeat split; (lia || reflexivity).
  - rewrite (GetKeys_after_miss k w _ E). cbn [keysReads nowCalls events].
    destruct (storage.GetKeys (Storage k) (keysReads w)) as [sk [err|]]; cbn [fst snd].
    + cbn. repeat split; (lia || reflexivity).
    + match goal with |- context [Before ?a ?b] => destruct (Before a b) end; cbn; repeat split; (lia || reflexivity).
Qed.

(** X9: a call of GetKeys that does not read storage answers with the
    keys of the slot, without error, and the clock it has just read lies
    strictly before their NextRotation: the cache never serves keys that
    are due for rotation. *)
Theorem GetKeys_never_serves_expired (k : keyCacher) (w : Env) :
  let out := keyCacher_GetKeys k w in
  keysReads out.2 = keysReads w ->
  exists cached,
    keys k = Some cached
    /\ out.1.1 = (cached, None)
    /\ Before (now k (nowCalls w)) (storage.NextRotation cached) = true.
Proof.
  cbv zeta.
  destruct (cachedFresh_cases k w) as [(c & Hk & Hb & E)|[[Hk E]|(c & Hk & Hb & E)]].
  - intros _. exists c. unfold keyCacher_GetKeys. rewrite E. auto.
  - rewrite (GetKeys_after_miss k w _ E).
    destruct (storage.GetKeys (Storage k) (keysReads w)) as [sk [err|]]; cbn [fst snd].
    + cbn. lia.
    + match goal with |- context [Before ?a ?b] => destruct (Before a b) end; cbn; lia.
  - rewrite (GetKeys_after_miss k w _ E). cbn [keysReads nowCalls events].
    destruct (storage.GetKeys (Storage k) (keysReads w)) as [sk [err|]]; cbn [fst snd].
    + cbn. lia.
    + match goal with |- context [Before ?a ?b] => destruct (Before a b) end; cbn; lia.
Qed.

(** X10: a call of GetKeys reads storage at most once and the clock at
    most twice, and an error of storage is passed on as it is, with the
    slot left as it was. *)
Theorem GetKeys_effort_and_errors (k : keyCacher) (w : Env) :
  let out := keyCacher_GetKeys k w in
  (keysReads out.2 <= keysReads w + 1)%nat
  /\ (nowCalls out.2 <= nowCalls w + 2)%nat
  /\ (forall err, out.1.1.2 = Some err ->
      out.1.1 = storage.GetKeys (Storage k) (keysReads w)
      /\ keysReads out.2 = S (keysReads w)
      /\ out.1.2 = k).
Proof.
  cbv zeta. pose proof (GetKeys_frame k w) as (Hn & Hr & _). cbv zeta in Hn, Hr.
  split; [lia|]. split; [lia|]. intros err.
  destruct (cachedFresh_cases k w) as [(c & Hk & Hb & E)|[[Hk E]|(c & Hk & Hb & E)]].
  - unfold keyCacher_GetKeys. rewrite E. cbn. discriminate.
  - rewrite (GetKeys_after_miss k w _ E).
    destruct (storage.GetKeys (Storage k) (keysReads w)) as [sk [e|]]; cbn [fst snd].
    + cbn. auto.
    + match goal with |- context [Before ?a ?b] => destruct (Before a b) end; cbn; discriminate.
  - rewrite (GetKeys_after_miss k w _ E). cbn [keysReads nowCalls events].
    destruct (storage.GetKeys (Storage k) (keysReads w)) as [sk [e|]]; cbn [fst snd].
    + cbn. auto.
    + match goal with |- context [Before ?a ?b] => destruct (Before a b) end; cbn; discriminate.
Qed.


(** One call of GetKeys answers with an answer of storage, and keeps in
    the slot only answers of storage. *)
Lemma GetKeys_from_storage (k : keyCacher) (w : Env) :
  slotFromStorage k w ->
  let out := keyCacher_GetKeys k w in
  (exists j, (j < keysReads out.2)%nat
     /\ storage.GetKeys (Storage k) j = out.1.1)
  /\ slotFromStorage out.1.2 out.2.
Proof.
  intros Hslot. cbv zeta.
  destruct (cachedFresh_cases k w) as [(c & Hk & Hb & E)|[[Hk E]|(c & Hk & Hb & E)]].
  - unfold keyCacher_GetKeys. rewrite E. cbn [fst snd keysReads]. split; [|exact Hslot].
    destruct (Hslot c Hk) as (j & Hj & Hg). eauto.
  - rewrite (GetKeys_after_miss k w _ E).
    destruct (storage.GetKeys (Storage k) (keysReads w)) as [sk [err|]] eqn:Hg;
      cbn [fst snd].
    + cbn [fst snd keysReads]. split; [exists (keysReads w); split; [cbn; lia|cbn; done]|].
      intros c Hc. destruct (Hslot c Hc) as (j & Hj & Hgj). exists j. split; [cbn; lia|cbn; done].
    + match goal with |- context [Before ?a ?b] => destruct (Before a b) end; cbn [fst snd keysReads keys Storage].
      * split; [exists (keysReads w); split; [cbn; lia|cbn; done]|].
        intros c [= <-]. exists (keysReads w). split; [cbn; lia|cbn; done].
      * split; [exists (keysReads w); split; [cbn; lia|cbn; done]|].
        intros c Hc. destruct (Hslot c Hc) as (j & Hj & Hgj). exists j. split; [cbn; lia|cbn; done].
  - rewrite (GetKeys_after_miss k w _ E). cbn [keysReads nowCalls events].
    destruct (storage.GetKeys (Storage k) (keysReads w)) as [sk [err|]] eqn:Hg;
      cbn [fst snd].
    + cbn [fst snd keysReads]. split; [exists (keysReads w); split; [cbn; lia|cbn; done]|].
      intros c' Hc. destruct (Hslot c' Hc) as (j & Hj & Hgj). exists j. split; [cbn; lia|cbn; done].
    + match goal with |- context [Before ?a ?b] => destruct (Before a b) end; cbn [fst snd keysReads keys Storage].
      * split; [exists (keysReads w); split; [cbn; lia|cbn; done]|].
        intros c' [= <-]. exists (keysReads w). split; [cbn; lia|cbn; done].
      * split; [exists (keysReads w); split; [cbn; lia|cbn; done]|].
        intros c' Hc. destruct (Hslot c' Hc) as (j & Hj & Hgj). exists j. split; [cbn; lia|cbn; done].
Qed.

Lemma GetKeys_times_frame (n : nat) (k : keyCacher) (w : Env) :
  (keysReads w <= keysReads (GetKeys_times n k w).2)%nat
  /\ Storage (GetKeys_times n k w).1.2 = Storage k.
Proof.
  revert k w. induction n as [|n IH]; intros k w; [cbn; split; [lia|done]|].
  rewrite GetKeys_times_S. cbn [fst snd].
  pose proof (GetKeys_frame k w) as (_ & Hr & Hs & _). cbv zeta in Hr, Hs.
  destruct (IH (keyCacher_GetKeys k w).1.2 (keyCacher_GetKeys k w).2) as [Hr' Hs'].
  split; [lia|congruence].
Qed.

Lemma GetKeys_times_from_storage (n : nat) (k : keyCacher) (w : Env) :
  slotFromStorage k w ->
  forall a, a ∈ (GetKeys_times n k w).1.1 ->
    exists j, (j < keysReads (GetKeys_times n k w).2)%nat
      /\ storage.GetKeys (Storage k) j = a.
Proof.
  revert k w. induction n as [|n IH]; intros k w Hslot a Hin.
  - by apply elem_of_nil in Hin.
  - rewrite GetKeys_times_S in Hin |- *. cbn [fst snd] in Hin |- *.
    destruct (GetKeys_from_storage k w Hslot) as [(j & Hj & Hg) Hslot'].
    pose proof (GetKeys_frame k w) as (_ & _ & Hs & _). cbv zeta in Hs.
    apply elem_of_cons in Hin as [->|Hin].
    + exists j. split; [|done].
      pose proof (GetKeys_times_frame n (keyCacher_GetKeys k w).1.2
                                      (keyCacher_GetKeys k w).2) as [Hr _]. lia.
    + destruct (IH _ _ Hslot' a Hin) as (j' & Hj' & Hg'). exists j'.
      split; [done|]. by rewrite <- Hs.
Qed.

Section KeyCacherMore.
Context `{Clock}.

(** X11: a key cacher never makes keys up: every answer of every run of
    calls on a new cacher, error included, is an answer that the wrapped
    storage has given to one of the reads made so far. *)
Theorem GetKeys_answers_come_from_storage (s : storage.Storage)
  (clock : option (nat -> Time)) (n : nat) :
  let run := GetKeys_times n (newKeyCacher s clock) startEnv in
  (keysReads run.2 <= n)%nat
  /\ forall a, a ∈ run.1.1 ->
       exists j, (j < keysReads run.2)%nat /\ storage.GetKeys s j = a.
Proof.
  cbv zeta. split.
  - assert (Hgen : forall m k w, (keysReads (GetKeys_times m k w).2 <= keysReads w + m)%nat).
    { induction m as [|m IH]; intros k w; [cbn; lia|].
      rewrite GetKeys_times_S. cbn [fst snd].
      pose proof (GetKeys_frame k w) as (_ & Hr & _). cbv zeta in Hr.
      specialize (IH (keyCacher_GetKeys k w).1.2 (keyCacher_GetKeys k w).2). lia. }
    apply (Hgen n (newKeyCacher s clock) startEnv).
  - apply (GetKeys_times_from_storage n (newKeyCacher s clock) startEnv).
    intros c Hc. discriminate.
Qed.

End KeyCacherMore.

(** X12: while the clock stays strictly before the NextRotation of the
    keys in the slot, any number of calls of GetKeys return those keys,
    read the clock once each and never read storage. *)
Theorem GetKeys_times_within_rotation (n : nat) (k : keyCacher) (w : Env)
  (cached : storage.Keys) :
  keys k = Some cached ->
  (forall i, (nowCalls w <= i < nowCalls w + n)%nat ->
     Before (now k i) (storage.NextRotation cached) = true) ->
  let run := GetKeys_times n k w in
  run.1.1 = replicate n (cached, None)
  /\ run.1.2 = k
  /\ keysReads run.2 = keysReads w
  /\ nowCalls run.2 = (nowCalls w + n)%nat.
Proof.
  intros Hk. revert w. induction n as [|n IH]; intros w Hfresh; cbv zeta.
  - cbn. repeat split; lia.
  - rewrite GetKeys_times_S. cbn [fst snd].
    assert (E : keyCacher_GetKeys k w
                = ((cached, None), k,
                   mkEnv (S (nowCalls w)) (keysReads w)
                         (ev_now (now k (nowCalls w)) :: events w))).
    { unfold keyCacher_GetKeys, cachedFresh, call_now. rewrite Hk.
      rewrite (Hfresh (nowCalls w)) by lia. reflexivity. }
    rewrite E. cbn [fst snd].
    destruct (IH (mkEnv (S (nowCalls w)) (keysReads w)
                        (ev_now (now k (nowCalls w)) :: events w)))
      as (Ha & Hk' & Hr & Hn).
    { intros i Hi. cbn in Hi. apply Hfresh. lia. }
    cbn [nowCalls keysReads] in *. rewrite Ha, Hk', Hr, Hn.
    repeat split; try done. lia.
Qed.

(** ** The connector registry *)

Section RegistryMore.
Context `{Package} `{ConnectorPackages}.

(** OpenConnector changes the connector map of the server and nothing
    else. *)
Lemma OpenConnector_only_map (s : Server) (conn : storage.Connector) :
  (Server_OpenConnector s conn).2
  = set_connectors s (connectors (Server_OpenConnector s conn).2).
Proof.
  unfold Server_OpenConnector.
  destruct (if String.eqb (storage.Type_ conn) LocalConnector
            then (newPasswordDB (Storage (storage_ s)), None)
            else openConnector (WithField (logger s) "connector" (storage.Name conn)) conn)
    as [c [e|]]; cbn; [by destruct s|reflexivity].
Qed.

(** X13: a record of the type local is opened without a look at
    ConnectorsConfig or at its config blob: OpenConnector always
    succeeds on it, and files under the id of the record the password
    connector over the storage of the server, with the ResourceVersion
    of the record. *)
Theorem OpenConnector_local (s : Server) (conn : storage.Connector) :
  storage.Type_ conn = LocalConnector ->
  let out := Server_OpenConnector s conn in
  out.1 = (mkServerConnector (storage.ResourceVersion conn)
                             (connector.passwordDB (Storage (storage_ s))), None)
  /\ connectors out.2 !! storage.ID conn = Some out.1.1
  /\ forall id, id <> storage.ID conn -> connectors out.2 !! id = connectors s !! id.
Proof.
  intros Hty. cbv zeta. unfold Server_OpenConnector. rewrite Hty. cbn.
  split; [reflexivity|]. split; [by rewrite lookup_insert_eq|].
  intros id Hne. by rewrite lookup_insert_ne.
Qed.

(** X14: openConnector fails in three ways only: when it returns an
    error, the type of the record is unknown, or its non-empty config blob
    did not parse, or Open failed on the config; otherwise it returns the
    connector that Open has returned for the parsed config. *)
Theorem openConnector_fails_only (lg : Logger) (conn : storage.Connector) :
  (is_Some (openConnector lg conn).2 -> OpenFails lg conn)
  /\ ((openConnector lg conn).2 = None ->
      exists f, ConnectorsConfig !! storage.Type_ conn = Some f
        /\ (parsedConfig f conn).2 = None
        /\ openConnector lg conn
           = ((Open f (parsedConfig f conn).1 (storage.ID conn) lg).1, None)).
Proof.
  unfold openConnector.
  destruct (ConnectorsConfig !! storage.Type_ conn) as [f|] eqn:Hty.
  - unfold openWith.
    destruct (parsedConfig f conn) as [cfg [e|]] eqn:Hp.
    + split; [|discriminate]. intros _.
      assert (Hne : storage.Config conn <> "").
      { intros Hempty. unfold parsedConfig in Hp. rewrite Hempty in Hp. discriminate. }
      apply (unparsable_config lg conn f e Hty Hne).
      by rewrite <- (parsedConfig_nonempty f conn Hne), Hp.
    + destruct (Open f cfg (storage.ID conn) lg) as [c [e|]] eqn:Ho.
      * split; [|discriminate]. intros _.
        apply (open_failed lg conn f e Hty); rewrite Hp; [done|]. cbn. by rewrite Ho.
      * split; [intros [? ?]; discriminate|]. intros _. exists f.
        split; [done|]. rewrite Hp. split; [done|]. cbn. by rewrite Ho.
  - split; [|discriminate]. intros _. by apply unknown_type.
Qed.

(** X15: when storage cannot return the record of the id, getConnector
    returns that error wrapped, with the zero Connector, and leaves the
    server as it was: nothing is opened and the connector map is not
    read. *)
Theorem getConnector_storage_error (s : Server) (id : string)
  (record : storage.Connector) (err : error) :
  storage.GetConnector (Storage (storage_ s)) id = (record, Some err) ->
  Server_getConnector s id
  = ((zeroConnector,
      Some (fmt_Errorf "failed to get connector object from storage: %v" [arg_v err])),
     s).
Proof. intros Hget. unfold Server_getConnector. by rewrite Hget. Qed.

(** getConnector is either a hit on the map or a call of OpenConnector on
    the record of storage. *)
Lemma getConnector_cases (s : Server) (id : string) :
  let got := storage.GetConnector (Storage (storage_ s)) id in
  let out := Server_getConnector s id in
  (out.2 = s
   /\ (out.1.2 = None ->
       got.2 = None /\ connectors s !! id = Some out.1.1
       /\ ResourceVersion out.1.1 = storage.ResourceVersion got.1))
  \/ (got.2 = None
      /\ out.2 = (Server_OpenConnector s got.1).2
      /\ out.1.2 = None
      /\ (Server_OpenConnector s got.1).1 = (out.1.1, None)).
Proof.
  cbv zeta. unfold Server_getConnector.
  destruct (storage.GetConnector (Storage (storage_ s)) id) as [record [e|]];
    cbn [fst snd]; [left; split; [done|discriminate]|].
  destruct (connectors s !! id) as [conn|] eqn:Hconn.
  - destruct (String.eqb_spec (storage.ResourceVersion record) (ResourceVersion conn))
      as [Heq|Hne]; cbn [negb].
    + left. cbn. auto.
    + destruct (Server_OpenConnector s record) as [[c [e|]] s'] eqn:Ho; cbn [fst snd].
      * left. pose proof (OpenConnector_failure s record e) as Hf.
        rewrite Ho in Hf. cbn [fst snd] in Hf. destruct (Hf eq_refl) as [_ Hs'].
        subst s'. split; [done|discriminate].
      * right. auto.
  - destruct (Server_OpenConnector s record) as [[c [e|]] s'] eqn:Ho; cbn [fst snd].
    + left. pose proof (OpenConnector_failure s record e) as Hf.
      rewrite Ho in Hf. cbn [fst snd] in Hf. destruct (Hf eq_refl) as [_ Hs'].
        subst s'. split; [done|discriminate].
    + right. auto.
Qed.

(** X16: getConnector changes nothing of the server but the entry of the
    connector map filed under the ID of the record that storage has
    returned: every other entry and every other field stay as they
    were. *)
Theorem getConnector_touches_one_entry (s : Server) (id : string) :
  let out := Server_getConnector s id in
  let record := (storage.GetConnector (Storage (storage_ s)) id).1 in
  out.2 = set_connectors s (connectors out.2)
  /\ forall other, other <> storage.ID record ->
       connectors out.2 !! other = connectors s !! other.
Proof.
  cbv zeta.
  destruct (getConnector_cases s id) as [[Hs _]|(Hgot & Hs & Hok & Ho)]; rewrite Hs.
  - split; [by destruct s|done].
  - split; [apply OpenConnector_only_map|].
    intros other Hne. apply OpenConnector_success; [|done]. by rewrite Ho.
Qed.

(** X17: once getConnector has returned a connector for an id whose
    record carries that id, a second getConnector, with the record in
    storage unchanged, returns the same connector from the map and opens
    nothing. *)
Theorem getConnector_twice (s : Server) (id : string) (record : storage.Connector) :
  storage.GetConnector (Storage (storage_ s)) id = (record, None) ->
  storage.ID record = id ->
  let first := Server_getConnector s id in
  first.1.2 = None ->
  Server_getConnector first.2 id = ((first.1.1, None), first.2).
Proof.
  intros Hget Hid. cbv zeta. intros Hok.
  pose proof (getConnector_touches_one_entry s id) as [Hframe _]. cbv zeta in Hframe.
  assert (Hentry : connectors (Server_getConnector s id).2 !! id
                   = Some (Server_getConnector s id).1.1
                   /\ ResourceVersion (Server_getConnector s id).1.1
                      = storage.ResourceVersion record).
  { destruct (getConnector_cases s id) as [[Hs Hhit]|(Hgot & Hs & _ & Ho)];
      rewrite Hget in *; cbn [fst snd] in *.
    - destruct (Hhit Hok) as (_ & Hconn & Hrv). by rewrite Hs.
    - pose proof (OpenConnector_success s record) as Hsucc.
      rewrite Ho in Hsucc. cbn [fst snd] in Hsucc.
      destruct (Hsucc eq_refl) as (Hin & Hrv & _).
      rewrite Hs. by rewrite Hid in Hin. }
  destruct Hentry as [Hentry Hrv].
  assert (Hget' : storage.GetConnector
                    (Storage (storage_ (Server_getConnector s id).2)) id
                  = (record, None)).
  { rewrite Hframe. exact Hget. }
  unfold Server_getConnector at 1. rewrite Hget', Hentry, Hrv, String.eqb_refl.
  reflexivity.
Qed.

(** The loop that opens the records of storage never removes an entry
    from the connector map. *)
Lemma openAll_keeps_entries (conns : list storage.Connector) (s s' : Server) (id : string) :
  openAll s conns = inl s' ->
  is_Some (connectors s !! id) -> is_Some (connectors s' !! id).
Proof.
  revert s. induction conns as [|conn rest IH]; intros s; cbn [openAll].
  - intros [= ->]. done.
  - pose proof (OpenConnector_success s conn) as Hsucc.
    destruct (Server_OpenConnector s conn) as [[c [e|]] s1]; [discriminate|].
    cbn [fst snd] in Hsucc. destruct (Hsucc eq_refl) as (Hin & _ & Hother).
    intros Hall Hsome. apply (IH s1 Hall).
    destruct (decide (id = storage.ID conn)) as [->|Hne]; [by rewrite Hin|].
    by rewrite Hother.
Qed.

(** When the loop has opened every record, each has an entry in the
    connector map and every id that is not listed keeps what it had. *)
Lemma openAll_success (conns : list storage.Connector) (s s' : Server) :
  openAll s conns = inl s' ->
  (forall conn, conn ∈ conns -> is_Some (connectors s' !! storage.ID conn))
  /\ (forall id, id ∉ storage.ID <$> conns -> connectors s' !! id = connectors s !! id).
Proof.
  revert s. induction conns as [|conn rest IH]; intros s; cbn [openAll].
  - intros [= ->]. split; [intros conn Hin; by apply elem_of_nil in Hin|done].
  - pose proof (OpenConnector_success s conn) as Hsucc.
    destruct (Server_OpenConnector s conn) as [[c [e|]] s1]; [discriminate|].
    cbn [fst snd] in Hsucc. destruct (Hsucc eq_refl) as (Hin & _ & Hother).
    intros Hall. destruct (IH s1 Hall) as [Hall_in Hrest]. split.
    + intros conn' [->|Hin']%elem_of_cons; [|by apply Hall_in].
      apply (openAll_keeps_entries rest s1 s' _ Hall). by rewrite Hin.
    + intros id Hnot. rewrite fmap_cons in Hnot.
      apply not_elem_of_cons in Hnot as [Hne Hnot].
      rewrite (Hrest id Hnot). by apply Hother.
Qed.


End RegistryMore.

(** ** Construction of the server *)

Section ConstructionMore.
Context `{Handlers} `{Clock}.

(** The loop that opens the records of storage changes the connector map
    of the server and nothing else. *)
Lemma openAll_only_map (conns : list storage.Connector) (s s' : Server) :
  openAll s conns = inl s' -> s' = set_connectors s (connectors s').
Proof.
  revert s. induction conns as [|conn rest IH]; intros s; cbn [openAll].
  - intros [= ->]. by destruct s'.
  - pose proof (OpenConnector_only_map s conn) as Hmap.
    destruct (Server_OpenConnector s conn) as [[c [e|]] s1]; [discriminate|].
    cbn [fst snd] in Hmap. intros Hall. rewrite (IH s1 Hall). rewrite Hmap. reflexivity.
Qed.

(** The server that a successful construction returns: the first server
    value of newServer, with the connector map that the loop over the
    records of storage has filled and with the routes. *)
Lemma newServer_built (c : conf.Config) (rs : rotationStrategy) (srv : Server)
  (workers : list Worker) :
  newServer c rs = ((Some srv, None), workers) ->
  exists st conns s',
    conf.Storage c = Some st
    /\ storage.ListConnectors st = (conns, None)
    /\ conns <> []
    /\ connectors s' = ∅
    /\ openAll s' conns = inl (set_connectors s' (connectors srv))
    /\ issuerURL srv = (url_Parse (conf.Issuer c)).1
    /\ storage_ srv
       = newKeyCacher st (Some (match conf.Now c with
                                | None => time_Now
                                | Some f => f
                                end))
    /\ now_ srv = match conf.Now c with
                  | None => time_Now
                  | Some f => f
                  end
    /\ skipApproval srv = conf.SkipApprovalScreen c
    /\ passwordConnector srv = conf.PasswordConnector c
    /\ logger srv = match conf.Logger c with
                    | None => logrus_New
                    | Some l => l
                    end.
Proof.
  unfold newServer, failed.
  destruct (url_Parse (conf.Issuer c)) as [u [e|]]; [discriminate|].
  destruct (conf.Storage c) as [st|]; [|discriminate].
  destruct (supportedTypes _ ∅) as [supported|e] eqn:Hs; [|discriminate].
  destruct (loadTemplates (conf.Web c) (conf.Issuer c)) as [tpl [e|]]; [discriminate|].
  destruct (storage.ListConnectors st) as [conns [e|]] eqn:Hlist; [discriminate|].
  destruct (_ && _) eqn:Hempty; [discriminate|].
  destruct (openAll _ conns) as [s'|e] eqn:Hopen; [|discriminate].
  destruct (match conf.PrometheusRegistry c with
            | Some registry => prometheus_Register registry
            | None => None
            end); [discriminate|].
  destruct (discoveryHandler s'); [discriminate|].
  intros [= <- <-]. pose proof (openAll_only_map _ _ _ Hopen) as Hmap.
  match type of Hopen with openAll ?s0 _ = _ => exists st, conns, s0 end.
  split; [done|]. split; [done|]. split.
  { intros ->. cbn [length connectors] in Hempty.
    rewrite map_size_empty in Hempty. discriminate. }
  split; [reflexivity|]. split.
  { cbn [connectors set_mux]. rewrite Hopen. f_equal. exact Hmap. }
  rewrite Hmap. cbn. repeat split; reflexivity.
Qed.

(** X19: a server is built only over a storage that lists at least one
    connector record, and the connector map of the server then holds an
    entry for every record listed and for nothing else. *)
Theorem newServer_opens_listed_connectors (c : conf.Config) (rs : rotationStrategy)
  (srv : Server) (workers : list Worker) :
  newServer c rs = ((Some srv, None), workers) ->
  exists st conns,
    conf.Storage c = Some st
    /\ storage.ListConnectors st = (conns, None)
    /\ conns <> []
    /\ forall id, is_Some (connectors srv !! id) <-> id ∈ storage.ID <$> conns.
Proof.
  intros Hnew.
  destruct (newServer_built c rs srv workers Hnew)
    as (st & conns & s0 & Hst & Hlist & Hne & Hempty & Hopen & _).
  exists st, conns. split; [done|]. split; [done|]. split; [done|].
  destruct (openAll_success conns s0 _ Hopen) as [Hin Hout].
  cbn [connectors set_connectors] in Hin, Hout.
  intros id. split.
  - intros Hsome. destruct (decide (id ∈ storage.ID <$> conns)) as [?|Hnot]; [done|].
    rewrite (Hout id Hnot), Hempty, lookup_empty in Hsome. by destruct Hsome.
  - intros (conn & -> & Hconn)%list_elem_of_fmap. by apply Hin.
Qed.


(** The default of value is what keeps the result from being zero. *)
Lemma value_nonzero (val defaultValue : Duration) :
  defaultValue <> 0 -> value val defaultValue <> 0.
Proof. unfold value. destruct (Z.eqb_spec val 0); auto. Qed.

(** X21: no server built by NewServer runs on a zero interval: the
    rotation period and the validity of ID tokens handed to the rotation
    strategy, the validity kept by the server and the period of the
    garbage collector are all different from zero, whatever the
    configuration says. *)
Theorem NewServer_intervals_nonzero (c : conf.Config) (srv : Server)
  (workers : list Worker) :
  NewServer c = ((Some srv, None), workers) ->
  exists rotateKeysAfter idTokensValid gcFrequency clock,
    workers = [ keyRotation (defaultRotationStrategy rotateKeysAfter idTokensValid) clock;
                garbageCollection gcFrequency clock ]
    /\ rotateKeysAfter <> 0
    /\ idTokensValid <> 0
    /\ gcFrequency <> 0
    /\ idTokensValidFor srv <> 0.
Proof.
  unfold NewServer. intros Hnew.
  destruct (newServer_success _ _ _ _ Hnew) as (_ & Hvalid & Hworkers).
  eexists _, _, _, _. split; [exact Hworkers|]. rewrite Hvalid.
  repeat split; apply value_nonzero; unfold Hour, Minute, Second, Nanosecond; lia.
Qed.

(** X22: newServer returns a server exactly when it returns no error,
    and it starts its two workers exactly then: a construction that
    fails leaves no worker behind. *)
Theorem newServer_server_or_error (c : conf.Config) (rs : rotationStrategy) :
  let out := newServer c rs in
  (is_Some out.1.1 <-> out.1.2 = None)
  /\ (out.1.2 = None -> length out.2 = 2%nat)
  /\ (out.1.2 <> None -> out.2 = []).
Proof.
  cbv zeta. destruct (newServer c rs) as [[[srv|] [e|]] workers] eqn:Hnew;
    cbn [fst snd].
  - pose proof (newServer_error c rs e) as He. rewrite Hnew in He.
    destruct (He eq_refl). discriminate.
  - destruct (newServer_success c rs srv workers Hnew) as (_ & _ & ->).
    split; [split; eauto|]. split; [done|contradiction].
  - pose proof (newServer_error c rs e) as He. rewrite Hnew in He.
    destruct (He eq_refl) as [_ Hw]. cbn in Hw. subst workers.
    split; [split; [intros [? ?]; discriminate|discriminate]|].
    split; [discriminate|done].
  - exfalso. revert Hnew. unfold newServer, failed.
    repeat (case_match; try discriminate).
Qed.
End ConstructionMore.

(** ** Header stripping on any header map *)

(** A map that is the map [h] with some of its deleted keys removed. *)
Lemma stripStep_partial (h g : gmap string (list string)) (k : string) :
  (forall key, g !! key = h !! key \/ (g !! key = None /\ deletedKey h key)) ->
  forall key, stripStep g k !! key = h !! key
              \/ (stripStep g k !! key = None /\ deletedKey h key).
Proof.
  intros Hinv key. unfold stripStep, Header_Del.
  destruct (g !! k) as [v|] eqn:Hk; [|apply Hinv].
  destruct (isRemoteKey k) eqn:Hr; [|apply Hinv].
  destruct (decide (CanonicalMIMEHeaderKey k = key)) as [<-|Hne].
  - right. split; [apply lookup_delete_eq|]. exists k. split; [|done].
    destruct (Hinv k) as [Hsame|[Hnone _]]; [|congruence]. rewrite <- Hsame. eauto.
  - rewrite lookup_delete_ne by done. apply Hinv.
Qed.

Lemma stripRemoteHeaders_partial (order : list string) (h g : gmap string (list string)) :
  (forall key, g !! key = h !! key \/ (g !! key = None /\ deletedKey h key)) ->
  forall key, stripRemoteHeaders order g !! key = h !! key
              \/ (stripRemoteHeaders order g !! key = None /\ deletedKey h key).
Proof.
  unfold stripRemoteHeaders. revert g.
  induction order as [|k order IH]; intros g Hinv; [exact Hinv|].
  cbn [fold_left]. apply IH. by apply stripStep_partial.
Qed.

(** Once the loop has come by a key of [h] that starts with x-remote-,
    its canonical form is gone. *)
Lemma stripRemoteHeaders_deletes (order : list string) (h g : gmap string (list string))
  (k : string) :
  (forall key, g !! key = h !! key \/ (g !! key = None /\ deletedKey h key)) ->
  is_Some (h !! k) -> isRemoteKey k = true -> k ∈ order ->
  stripRemoteHeaders order g !! CanonicalMIMEHeaderKey k = None.
Proof.
  intros Hinv Hk Hr. revert g Hinv.
  induction order as [|k' order IH]; intros g Hinv Hin; [by apply elem_of_nil in Hin|].
  unfold stripRemoteHeaders. cbn [fold_left].
  apply elem_of_cons in Hin as [<-|Hin].
  - apply (stripRemoteHeaders_None order). unfold stripStep, Header_Del.
    destruct (g !! k) as [v|] eqn:Hg.
    + rewrite Hr. apply lookup_delete_eq.
    + destruct (Hinv k) as [Hsame|[_ (k0 & _ & _ & Hcanon)]].
      * rewrite Hg in Hsame. rewrite <- Hsame in Hk. by destruct Hk.
      * rewrite <- Hcanon, CanonicalMIMEHeaderKey_idem, Hcanon. exact Hg.
  - apply (IH (stripStep g k')); [by apply stripStep_partial|done].
Qed.

(** X23: on any header map, canonical keys or not, and for any order in
    which the runtime walks it, the loop of the /callback route removes
    exactly the canonical forms of the keys that start with x-remote-:
    those are absent afterwards and every other entry is as it was. *)
Theorem stripRemoteHeaders_outcome (order : list string) (h : gmap string (list string)) :
  enumerates order h ->
  forall key,
    (deletedKey h key -> stripRemoteHeaders order h !! key = None)
    /\ (~ deletedKey h key -> stripRemoteHeaders order h !! key = h !! key).
Proof.
  intros Hen key. split.
  - intros (k & Hk & Hr & <-).
    apply (stripRemoteHeaders_deletes order h h k); auto.
  - intros Hnot.
    destruct (stripRemoteHeaders_partial order h h (fun _ => or_introl eq_refl) key)
      as [Hsame|[_ Hdel]]; [done|contradiction].
Qed.

(** X24: the outcome of the loop does not depend on the order in which
    Go walks the header map: two orders that each produce every key give
    the same map. *)
Theorem stripRemoteHeaders_order_independent (order order' : list string)
  (h : gmap string (list string)) :
  enumerates order h -> enumerates order' h ->
  stripRemoteHeaders order h = stripRemoteHeaders order' h.
Proof.
  intros Hen Hen'. apply map_eq. intros key.
  destruct (stripRemoteHeaders_partial order h h (fun _ => or_introl eq_refl) key)
    as [Hsame|[Hnone (k & Hk & Hr & <-)]].
  - destruct (stripRemoteHeaders_partial order' h h (fun _ => or_introl eq_refl) key)
      as [Hsame'|[Hnone' (k & Hk & Hr & <-)]]; [congruence|].
    rewrite Hnone'. apply (stripRemoteHeaders_deletes order h h k); auto.
  - rewrite Hnone. symmetry. apply (stripRemoteHeaders_deletes order' h h k); auto.
Qed.

(** X25: stripping is idempotent: a second run of the loop, in whatever
    order, finds nothing left to delete in a map that a full run has
    stripped. *)
Theorem stripRemoteHeaders_idempotent (order order' : list string)
  (h : gmap string (list string)) :
  enumerates order h ->
  stripRemoteHeaders order' (stripRemoteHeaders order h) = stripRemoteHeaders order h.
Proof.
  intros Hen. set (g := stripRemoteHeaders order h).
  assert (Hfix : forall k, stripStep g k = g).
  { intros k. unfold stripStep, Header_Del.
    destruct (g !! k) as [v|] eqn:Hk; [|done].
    destruct (isRemoteKey k) eqn:Hr; [|done].
    apply delete_id.
    assert (Hh : is_Some (h !! k)).
    { destruct (h !! k) eqn:E; [eauto|].
      unfold g in Hk. rewrite (stripRemoteHeaders_None order h k E) in Hk. discriminate. }
    apply (stripRemoteHeaders_deletes order h h k); auto. }
  unfold stripRemoteHeaders at 1.
  induction order' as [|k order' IH]; [done|]. cbn [fold_left]. by rewrite Hfix.
Qed.

(** ** The garbage collection worker *)

Section GarbageCollection.
Variable GarbageCollect : nat -> Time -> GCResult * option error.
Variable clock : nat -> Time.

(** X26: the worker stops at the first turn in which the context is
    done and does nothing after it: what it has done is what it does on
    the timer expiries before that turn, and it has returned exactly when
    such a turn occurs. *)
Theorem startGarbageCollection_stops_when_done (wakes : list Wake) (st : GCState) :
  let out := startGarbageCollection GarbageCollect clock wakes st in
  out.1 = (startGarbageCollection GarbageCollect clock (beforeDone wakes) st).1
  /\ (out.2 = true <-> ctx_Done ∈ wakes).
Proof.
  cbv zeta. revert st. induction wakes as [|[|] rest IH]; intros st; cbn.
  - split; [done|]. split; [discriminate|]. intros Hin. by apply elem_of_nil in Hin.
  - split; [done|]. split; [intros _; apply list_elem_of_here|done].
  - destruct (IH (garbageCollectOnce GarbageCollect clock st)) as [Hst Hdone].
    split; [done|]. rewrite Hdone. split; [apply list_elem_of_further|].
    intros [?|?]%elem_of_cons; [discriminate|done].
Qed.

(** X27: the worker calls GarbageCollect once for every expiry of the
    timer, each time with a fresh reading of its clock, whatever the
    earlier calls have answered: an error of storage does not end the
    worker and is not retried. *)
Theorem startGarbageCollection_collects_each_tick (wakes : list Wake) (st : GCState) :
  let out := (startGarbageCollection GarbageCollect clock wakes st).1 in
  let ticks := length (beforeDone wakes) in
  collected out = (rev (clock <$> seq (gcNowCalls st) ticks) ++ collected st)%list
  /\ gcNowCalls out = (gcNowCalls st + ticks)%nat.
Proof.
  cbv zeta. revert st. induction wakes as [|[|] rest IH]; intros st; cbn.
  - split; [done|lia].
  - split; [done|lia].
  - destruct (IH (garbageCollectOnce GarbageCollect clock st)) as [Hc Hn].
    rewrite Hc, Hn. unfold garbageCollectOnce.
    destruct (GarbageCollect (length (collected st)) (clock (gcNowCalls st))) as [r e].
    cbn [collected gcNowCalls]. split; [|lia].
    by rewrite <- app_assoc.
Qed.

(** X28: one turn of the timer logs at most one line: an error line
    when GarbageCollect fails, an info line with the two counts when it
    succeeds and has deleted an auth request or an auth code, and nothing
    when it succeeds and has deleted nothing. *)
Theorem garbageCollectOnce_log (st : GCState) :
  let answer := GarbageCollect (length (collected st)) (clock (gcNowCalls st)) in
  let out := garbageCollectOnce GarbageCollect clock st in
  exists lines,
    logged out = (lines ++ logged st)%list
    /\ (forall err, answer.2 = Some err ->
        lines = [Errorf "garbage collection failed: %v" [arg_v err]])
    /\ (answer.2 = None -> AuthRequests answer.1 <= 0 -> AuthCodes answer.1 <= 0 ->
        lines = [])
    /\ (answer.2 = None -> (0 < AuthRequests answer.1 \/ 0 < AuthCodes answer.1) ->
        lines = [Infof "garbage collection run, delete auth requests=%d, auth codes=%d"
                       [arg_d (AuthRequests answer.1); arg_d (AuthCodes answer.1)]]).
Proof.
  cbv zeta. unfold garbageCollectOnce.
  destruct (GarbageCollect (length (collected st)) (clock (gcNowCalls st)))
    as [r [e|]]; cbn [fst snd logged].
  - eexists. split; [reflexivity|]. split; [by intros err [= ->]|].
    split; discriminate.
  - eexists. split; [reflexivity|]. split; [discriminate|].
    destruct (Z.ltb_spec 0 (AuthRequests r)), (Z.ltb_spec 0 (AuthCodes r)); cbn [orb];
      (split; [intros _ ? ?; try lia; reflexivity|intros _ [?|?]; try lia; reflexivity]).
Qed.

End GarbageCollection.

(** ** The further statements on concrete inputs *)

(** The keys of a map, as the map lists them, enumerate it. *)
Lemma keys_enumerate (h : gmap string (list string)) :
  enumerates (map_to_list h).*1 h.
Proof.
  intros key [v Hk]. apply list_elem_of_fmap. exists (key, v).
  split; [reflexivity|]. by apply elem_of_map_to_list.
Qed.

(** An order that holds every key the map lists enumerates it. *)
Lemma enumerates_of_keys (order : list string) (h : gmap string (list string)) :
  (forall key, key ∈ (map_to_list h).*1 -> key ∈ order) -> enumerates order h.
Proof. intros Hall key Hk. by apply Hall, keys_enumerate. Qed.

Section ExamplesMore.
Import example.
#[local] Existing Instance toyBcrypt.
#[local] Existing Instance toyClock.
#[local] Existing Instance toyPlatform.
#[local] Existing Instance toyPackage.
#[local] Existing Instance toyConnectors.
#[local] Existing Instance toyHandlers.

(** A wrong password for alice leaves nothing of her record in the
    answer. *)
Lemma Login_failure_returns_zero_identity_witness :
  (passwordDB_Login db "a@b.c" "wrong").1.1.2 = false
  /\ (passwordDB_Login db "a@b.c" "wrong").1.1.1 = connector.zeroIdentity.
Proof.
  split; [reflexivity|].
  exact (Login_failure_returns_zero_identity db "a@b.c" "wrong" (or_introl eq_refl)).
Defined.

(** A login while the storage cannot be reached. *)
Lemma Login_storage_error_witness :
  passwordDB_Login (mkPasswordDB sample.unreachable) "a@b.c" "hunter2"
  = ((connector.zeroIdentity, false,
      Some (fmt_Errorf "get password: %v" [arg_v (errors_New "connection refused")])),
     [call_GetPassword "a@b.c"]).
Proof.
  exact (Login_storage_error (mkPasswordDB sample.unreachable) "a@b.c" "hunter2"
           (storage.mkPassword "" "" "" "") (errors_New "connection refused")
           eq_refl ltac:(discriminate)).
Defined.

(** A refresh while the storage cannot be reached. *)
Lemma Refresh_storage_error_witness :
  (passwordDB_Refresh (mkPasswordDB sample.unreachable) aliceIdentity).1
  = (connector.zeroIdentity,
     Some (fmt_Errorf "get password: %v" [arg_v (errors_New "connection refused")])).
Proof.
  exact (Refresh_storage_error (mkPasswordDB sample.unreachable) aliceIdentity
           (storage.mkPassword "" "" "" "") (errors_New "connection refused")
           eq_refl ltac:(discriminate)).
Defined.

(** Alice refreshes twice. *)
Lemma Refresh_idempotent_witness :
  (passwordDB_Refresh db aliceIdentity).1.2 = None
  /\ (passwordDB_Refresh db (passwordDB_Refresh db aliceIdentity).1.1).1
     = (passwordDB_Refresh db aliceIdentity).1.
Proof.
  split; [reflexivity|]. exact (Refresh_idempotent db aliceIdentity eq_refl).
Defined.

(** Alice logs in and refreshes. *)
Lemma Login_then_Refresh_witness :
  (passwordDB_Login db "a@b.c" "hunter2").1.1.2 = true
  /\ (passwordDB_Refresh db (passwordDB_Login db "a@b.c" "hunter2").1.1.1).1
     = ((passwordDB_Login db "a@b.c" "hunter2").1.1.1, None).
Proof.
  split; [reflexivity|].
  exact (Login_then_Refresh db "a@b.c" "hunter2" eq_refl eq_refl).
Defined.

(** A call served from the slot that holds K1, at time 50. *)
Lemma GetKeys_never_serves_expired_witness :
  let k := mkKeyCacher restored at50 (Some K1) in
  let w := mkEnv 1 1 [ev_Store K1; ev_now 50; ev_GetKeys (K1, None)] in
  exists cached,
    keys k = Some cached
    /\ (keyCacher_GetKeys k w).1.1 = (cached, None)
    /\ Before (now k (nowCalls w)) (storage.NextRotation cached) = true.
Proof.
  exact (GetKeys_never_serves_expired
           (mkKeyCacher restored at50 (Some K1))
           (mkEnv 1 1 [ev_Store K1; ev_now 50; ev_GetKeys (K1, None)]) eq_refl).
Defined.

(** Five calls at time 50 on the slot that holds K1. *)
Lemma GetKeys_times_within_rotation_witness :
  let k := mkKeyCacher restored at50 (Some K1) in
  let run := GetKeys_times 5 k (mkEnv 1 1 []) in
  run.1.1 = replicate 5 (K1, None)
  /\ run.1.2 = k
  /\ keysReads run.2 = 1%nat
  /\ nowCalls run.2 = 6%nat.
Proof.
  exact (GetKeys_times_within_rotation 5 (mkKeyCacher restored at50 (Some K1))
           (mkEnv 1 1 []) K1 eq_refl (fun _ _ => eq_refl)).
Defined.

(** The local record is opened although its blob is no JSON. *)
Lemma OpenConnector_local_witness :
  (Server_OpenConnector (emptyServer []) sample.localRecord).1.2 = None
  /\ ResourceVersion <$> connectors (Server_OpenConnector (emptyServer [])
                                        sample.localRecord).2 !! "local"
     = Some "7".
Proof.
  destruct (OpenConnector_local (emptyServer []) sample.localRecord eq_refl)
    as (Hout & Hentry & _).
  split; [by rewrite Hout|]. cbn [storage.ID sample.localRecord] in Hentry.
  rewrite Hentry, Hout. reflexivity.
Defined.

(** A lookup of a connector while the storage cannot be reached. *)
Lemma getConnector_storage_error_witness :
  Server_getConnector sample.cutOff "mock"
  = ((zeroConnector,
      Some (fmt_Errorf "failed to get connector object from storage: %v"
                       [arg_v (errors_New "connection refused")])),
     sample.cutOff).
Proof.
  exact (getConnector_storage_error sample.cutOff "mock"
           (storage.mkConnector "" "" "" "" "") (errors_New "connection refused")
           eq_refl).
Defined.

(** The mock connector, looked up twice. *)
Lemma getConnector_twice_witness :
  let first := Server_getConnector (emptyServer [mockRecord]) "mock" in
  first.1.2 = None
  /\ Server_getConnector first.2 "mock" = ((first.1.1, None), first.2).
Proof.
  split; [reflexivity|].
  exact (getConnector_twice (emptyServer [mockRecord]) "mock" mockRecord
           eq_refl eq_refl eq_refl).
Defined.

(** The minimal configuration lists one connector record, mock. *)
Lemma newServer_opens_listed_connectors_witness :
  exists srv workers st conns,
    NewServer minimalConfig = ((Some srv, None), workers)
    /\ conf.Storage minimalConfig = Some st
    /\ storage.ListConnectors st = (conns, None)
    /\ conns <> []
    /\ forall id, is_Some (connectors srv !! id) <-> id ∈ storage.ID <$> conns.
Proof.
  destruct (NewServer minimalConfig) as [[[srv|] [err|]] workers] eqn:Hnew;
    try (vm_compute in Hnew; discriminate).
  destruct (newServer_opens_listed_connectors minimalConfig _ srv workers Hnew)
    as (st & conns & Hst & Hlist & Hne & Hids).
  by exists srv, workers, st, conns.
Defined.


(** The minimal configuration, all of whose intervals are zero. *)
Lemma NewServer_intervals_nonzero_witness :
  conf.GCFrequency minimalConfig = 0
  /\ exists srv workers rotateKeysAfter idTokensValid gcFrequency clock,
       NewServer minimalConfig = ((Some srv, None), workers)
       /\ workers
          = [ keyRotation (defaultRotationStrategy rotateKeysAfter idTokensValid) clock;
              garbageCollection gcFrequency clock ]
       /\ rotateKeysAfter <> 0 /\ idTokensValid <> 0 /\ gcFrequency <> 0
       /\ idTokensValidFor srv <> 0.
Proof.
  split; [reflexivity|].
  destruct (NewServer minimalConfig) as [[[srv|] [err|]] workers] eqn:Hnew;
    try (vm_compute in Hnew; discriminate).
  destruct (NewServer_intervals_nonzero minimalConfig srv workers Hnew)
    as (r & v & g & clock & Hw & Hr & Hv & Hg & Hs).
  by exists srv, workers, r, v, g, clock.
Defined.

(** On the map with both spellings of the remote key, the canonical
    spelling goes. *)
Lemma stripRemoteHeaders_outcome_witness :
  stripRemoteHeaders (map_to_list sample.twoSpellings).*1 sample.twoSpellings
    !! "X-Remote-User" = None.
Proof.
  apply (stripRemoteHeaders_outcome _ sample.twoSpellings
           (keys_enumerate sample.twoSpellings) "X-Remote-User").
  exists "x-remote-user". split; [eexists; reflexivity|]. split; reflexivity.
Defined.

(** The same map walked from either end. *)
Lemma stripRemoteHeaders_order_independent_witness :
  stripRemoteHeaders ["x-remote-user"; "X-Remote-User"; "Accept"] sample.twoSpellings
  = stripRemoteHeaders ["Accept"; "X-Remote-User"; "x-remote-user"] sample.twoSpellings.
Proof.
  apply stripRemoteHeaders_order_independent; apply enumerates_of_keys;
    intros key Hk; vm_compute in Hk;
    repeat (apply elem_of_cons in Hk as [->|Hk]; [in_list|]);
    by apply elem_of_nil in Hk.
Defined.

(** The same map stripped twice. *)
Lemma stripRemoteHeaders_idempotent_witness :
  stripRemoteHeaders ["Accept"; "x-remote-user"]
    (stripRemoteHeaders (map_to_list sample.twoSpellings).*1 sample.twoSpellings)
  = stripRemoteHeaders (map_to_list sample.twoSpellings).*1 sample.twoSpellings.
Proof.
  exact (stripRemoteHeaders_idempotent _ ["Accept"; "x-remote-user"] sample.twoSpellings
           (keys_enumerate sample.twoSpellings)).
Defined.

End ExamplesMore.
